(** * QuickChart gateway: authentication, rate limiting and error presentation

    A shallow embedding of [index.js]: the limit-string parser
    ([parseLimits]), the start-up loop that builds the key registry
    ([loadKeys]), the authentication and rate-limiting middleware
    ([authAndRateLimit] with its inner [check]), the diagnostic-header
    sanitizer ([utf8ToAscii], [sanitizeErrorHeader]), the failure writers
    ([failPng], [failSvg], [failPdf]) and the route handlers that use them.

    Conventions of the embedding.
    - A JavaScript string is the list of its UTF-16 code units ([list N]).
    - The numbers the gate handles (parsed bounds, bucket ids, counts) are
      integers; they are embedded as [Z].  IEEE doubles agree with [Z] on
      integers of magnitude at most 2^53 - 1; beyond, [parseInt] yields the
      nearest double where the embedding keeps the integer read.  The
      statements about parsed values carry that range as a hypothesis
      ([safeInteger], [MAX_SAFE_INTEGER], [exactlyRead]).  [NaN] is [None]
      for [parseInt] and [JNaN] for stored counters.
    - A JavaScript object used as a dictionary ([limits], [counts],
      [req.query], response headers) and the [Map] [apiKeys] are finite
      maps; [undefined] is a failed lookup.
    - The store [requestCounts] is modelled twice.  [authAndRateLimit] keeps
      it as a finite map from credentials to counters.
      [authAndRateLimitOnObjects] keeps the objects it is made of, with the
      prototype they share: there the credential [__proto__] has its
      counters on [Object.prototype], where the other [counts] objects
      inherit them.  The two agree as long as no credential of that name is
      registered ([gate_on_objects]).
    - [Date.now()] is an argument of the middleware; the mutable store is
      passed in and returned.
    - [res.writeHead] throws at a header value with a control character
      other than tab ([headerAccepted]); the route handlers write their
      failure responses through [writeFailure], which checks it.
    - External collaborators (renderers, the PDF composer, the legacy
      translator) are section variables returning a [result]. *)

From Stdlib Require Import ZArith NArith Lia List Ascii String Bool.
From stdpp Require Import gmap strings list fin_maps.

Local Open Scope Z_scope.

Ltac Zify.zify_post_hook ::= Z.to_euclidean_division_equations.

(** ** Strings and numbers *)

Abbreviation jsstring := (list N).

(** The code units of an ASCII literal. *)
Definition js (s : string) : jsstring :=
  map N_of_ascii (list_ascii_of_string s).

(** Integers that a double represents exactly and distinguishes from their
    neighbours ([Number.MAX_SAFE_INTEGER] is 2^53 - 1). *)
Definition MAX_SAFE_INTEGER : Z := 9007199254740991.

Definition safeInteger (n : Z) : Prop := 0 <= n <= MAX_SAFE_INTEGER.

(** [StrWhiteSpaceChar]: what [parseInt] skips in front of the number. *)
Definition isStrWhiteSpaceChar (c : N) : bool :=
  ((9 <=? c) && (c <=? 13) || (c =? 32) || (c =? 160) || (c =? 5760)
   || (8192 <=? c) && (c <=? 8202) || (c =? 8232) || (c =? 8233)
   || (c =? 8239) || (c =? 8287) || (c =? 12288) || (c =? 65279))%N.

Definition isDigit (c : N) : bool := ((48 <=? c) && (c <=? 57))%N.

Definition digitValue (c : N) : Z := Z.of_N c - 48.

Fixpoint skipWhiteSpace (s : jsstring) : jsstring :=
  match s with
  | c :: r => if isStrWhiteSpaceChar c then skipWhiteSpace r else s
  | [] => []
  end.

(** The longest prefix of decimal digits. *)
Fixpoint digitPrefix (s : jsstring) : jsstring :=
  match s with
  | c :: r => if isDigit c then c :: digitPrefix r else []
  | [] => []
  end.

Definition digitsValue (ds : jsstring) : Z :=
  fold_left (fun acc c => acc * 10 + digitValue c) ds 0.

(** [parseInt(s, 10)] on a string: leading white space, an optional sign,
    then the longest run of digits; [None] is [NaN].  The result is the
    integer read; it is the number the code gets whenever its magnitude is
    at most [MAX_SAFE_INTEGER]. *)
Definition parseInt (s : jsstring) : option Z :=
  let s1 := skipWhiteSpace s in
  let '(sign, s2) :=
    match s1 with
    | c :: r =>
        if (c =? 45)%N then (-1, r)        (* '-' *)
        else if (c =? 43)%N then (1, r)    (* '+' *)
        else (1, s1)
    | [] => (1, s1)
    end in
  match digitPrefix s2 with
  | [] => None
  | ds => Some (sign * digitsValue ds)
  end.

(** [parseInt(v, 10)] on a possibly undefined argument: [undefined] is first
    converted to the string "undefined". *)
Definition parseIntArg (v : option jsstring) : option Z :=
  match v with
  | Some s => parseInt s
  | None => parseInt (js "undefined")
  end.

Fixpoint decimalDigits (fuel : nat) (n : Z) (acc : jsstring) : jsstring :=
  match fuel with
  | O => acc
  | S f =>
      let acc' := Z.to_N (48 + n mod 10) :: acc in
      if n <? 10 then acc' else decimalDigits f (n / 10) acc'
  end.

Definition digitsFuel (n : Z) : nat := S (Z.to_nat (Z.log2 n)).

(** [String(n)] for an integer [n]. *)
Definition numberToString (n : Z) : jsstring :=
  if n <? 0 then 45%N :: decimalDigits (digitsFuel (- n)) (- n) []
  else decimalDigits (digitsFuel n) n [].

(** [s.split(sep)] for a one-character separator. *)
Fixpoint split (sep : N) (s : jsstring) : list jsstring :=
  match s with
  | [] => [[]]
  | c :: r =>
      if (c =? sep)%N then [] :: split sep r
      else match split sep r with
           | p :: ps => (c :: p) :: ps
           | [] => [[c]]
           end
  end.

(** ** The limit parser (index.js, parseLimits) *)

Definition LIMIT_KEYS : list jsstring := [js "rps"; js "rpm"; js "rph"; js "rpd"].

(** The body of the [forEach] callback: one comma-separated part. *)
Definition parsePart (limits : gmap jsstring Z) (part : jsstring) : gmap jsstring Z :=
  let fields := split 58 part in
  let key := fields !! 0%nat in
  let value := fields !! 1%nat in
  let parsedValue := parseIntArg value in
  match key, parsedValue with
  | Some k, Some v =>
      if bool_decide (k ∈ LIMIT_KEYS) then <[k := v]> limits else limits
  | _, _ => limits
  end.

Definition parseParts (limitString : jsstring) : gmap jsstring Z :=
  fold_left parsePart (split 44 limitString) ∅.

(** The test [!isNaN(plainNumber) && String(plainNumber) === limitString],
    with the number when it holds.  Beyond [MAX_SAFE_INTEGER] the code
    compares with the numeral of the nearest double. *)
Definition isPlainNumber (limitString : jsstring) : option Z :=
  match parseInt limitString with
  | Some plainNumber =>
      if bool_decide (numberToString plainNumber = limitString)
      then Some plainNumber else None
  | None => None
  end.

Definition parseLimits (limitString : option jsstring) : gmap jsstring Z :=
  match limitString with
  | None | Some [] => ∅
  | Some s =>
      match isPlainNumber s with
      | Some plainNumber => {[ js "rps" := plainNumber ]}
      | None => parseParts s
      end
  end.

(** ** The window counter store and the gate (index.js, authAndRateLimit) *)

(** A number held in the store: an integer or [NaN]. *)
Inductive jsnum := JNaN | JInt (z : Z).

#[global] Instance jsnum_eq_dec : EqDecision jsnum.
Proof. solve_decision. Defined.

(** [stored !== timestamp], for [stored] possibly undefined. *)
Definition strictNotEqual (stored : option jsnum) (timestamp : Z) : bool :=
  match stored with
  | Some (JInt z) => negb (z =? timestamp)
  | _ => true
  end.

(** [stored + 1], for [stored] possibly undefined. *)
Definition addOne (stored : option jsnum) : jsnum :=
  match stored with
  | Some (JInt z) => JInt (z + 1)
  | _ => JNaN
  end.

(** [stored <= limit]. *)
Definition lessEq (stored : option jsnum) (limit : Z) : bool :=
  match stored with
  | Some (JInt z) => z <=? limit
  | _ => false
  end.

Definition countKey (unit : jsstring) : jsstring := js "count_" ++ unit.
Definition tsKey (unit : jsstring) : jsstring := js "ts_" ++ unit.

(** The closure [check]: the verdict and the updated [counts] object. *)
Definition check (limit : option Z) (unit : jsstring) (timestamp : Z)
    (counts : gmap jsstring jsnum) : bool * gmap jsstring jsnum :=
  match limit with
  | None => (true, counts)
  | Some l =>
      if l =? 0 then (false, counts)
      else
        let counts' :=
          if strictNotEqual (counts !! tsKey unit) timestamp
          then <[countKey unit := JInt 1]> (<[tsKey unit := JInt timestamp]> counts)
          else <[countKey unit := addOne (counts !! countKey unit)]> counts in
        (lessEq (counts' !! countKey unit) l, counts')
  end.

(** ** The diagnostic-header sanitizer (index.js, utf8ToAscii and
    sanitizeErrorHeader) *)

Definition isHighSurrogate (c : N) : bool := ((55296 <=? c) && (c <=? 56319))%N.
Definition isLowSurrogate (c : N) : bool := ((56320 <=? c) && (c <=? 57343))%N.

(** The UTF-8 bytes of one scalar value. *)
Definition utf8Bytes (cp : N) : list N :=
  (if cp <? 128 then [cp]
   else if cp <? 2048 then [192 + cp / 64; 128 + cp mod 64]
   else if cp <? 65536 then
     [224 + cp / 4096; 128 + (cp / 64) mod 64; 128 + cp mod 64]
   else
     [240 + cp / 262144; 128 + (cp / 4096) mod 64;
      128 + (cp / 64) mod 64; 128 + cp mod 64])%N.

(** U+FFFD, which [TextEncoder] writes for an unpaired surrogate. *)
Definition REPLACEMENT : list N := [239; 191; 189]%N.

(** [new TextEncoder().encode(str)]: surrogate pairs are combined, unpaired
    surrogates replaced, every scalar value written in UTF-8. *)
Fixpoint textEncode (str : jsstring) : list N :=
  match str with
  | [] => []
  | c :: r =>
      if isHighSurrogate c then
        match r with
        | d :: r' =>
            if isLowSurrogate d
            then utf8Bytes (65536 + (c - 55296) * 1024 + (d - 56320))%N
                   ++ textEncode r'
            else REPLACEMENT ++ textEncode r
        | [] => REPLACEMENT
        end
      else if isLowSurrogate c then REPLACEMENT ++ textEncode r
      else utf8Bytes c ++ textEncode r
  end.

(** [String.fromCharCode(v)]: the code unit [v mod 2^16]. *)
Definition fromCharCode (v : N) : N := (v mod 65536)%N.

Definition utf8ToAscii (str : jsstring) : jsstring :=
  map fromCharCode (textEncode str).

(** [s.replace(/\r?\n|\r/g, '')]: scanning left to right, a CR LF pair, a
    lone LF and a lone CR are each replaced by nothing. *)
Fixpoint stripNewlines (s : jsstring) : jsstring :=
  match s with
  | [] => []
  | c :: r =>
      if (c =? 13)%N then
        match r with
        | d :: r' => if (d =? 10)%N then stripNewlines r' else stripNewlines r
        | [] => []
        end
      else if (c =? 10)%N then stripNewlines r
      else c :: stripNewlines r
  end.

(** ** Values

    A JavaScript value as the handlers meet it: a string, an integer number,
    [NaN], or some other object (an array or nested object built by the [qs]
    query parser, an [Error]) carried with what [String(value)] yields.
    [undefined] is [None] in an [option jsval]. *)
Inductive jsval :=
  | VStr (s : jsstring)
  | VNum (z : Z)
  | VNaN
  | VObj (rendering : jsstring).

#[global] Instance jsval_eq_dec : EqDecision jsval.
Proof. solve_decision. Defined.

(** The conversion done by a template literal and by [parseInt] on its
    argument. *)
Definition toDisplayString (v : jsval) : jsstring :=
  match v with
  | VStr s => s
  | VNum z => numberToString z
  | VNaN => js "NaN"
  | VObj rendering => rendering
  end.

Definition truthy (v : option jsval) : bool :=
  match v with
  | None | Some (VStr []) | Some (VNum 0) | Some VNaN => false
  | Some _ => true
  end.

(** [a || b] on possibly undefined values. *)
Definition orElse (a b : option jsval) : option jsval :=
  if truthy a then a else b.

Definition numOf (n : option Z) : jsval :=
  match n with
  | Some z => VNum z
  | None => VNaN
  end.

(** [parseInt(v, 10)] on any value. *)
Definition parseIntVal (v : option jsval) : option Z :=
  parseIntArg (toDisplayString <$> v).

Definition sanitizeErrorHeader (msg : jsval) : jsstring :=
  match msg with
  | VStr s => stripNewlines (utf8ToAscii s)
  | _ => []
  end.

(** ** Responses and the failure writers (index.js, failPng and failSvg) *)

Inductive body :=
  | Text2Png (text : jsstring)     (* text2png(text, {padding, backgroundColor}) *)
  | SvgMessage (msg : jsstring)    (* the inline SVG document around msg *)
  | Buffer (buf : list N)          (* bytes produced by a collaborator *)
  | Text (s : jsstring).           (* a string written as it is *)

Record response := {
  statusCode : Z;
  headers : gmap jsstring jsstring;
  responseBody : body
}.

Definition CONTENT_TYPE : jsstring := js "Content-Type".
Definition ERROR_HEADER : jsstring := js "X-quickchart-error".

(** The response each writer sends once [res.writeHead] has accepted its
    headers (see [headerAccepted] and [writeFailure] below). *)
Definition failPng (msg : jsval) (status : Z) : response :=
  {| statusCode := status;
     headers := <[ERROR_HEADER := sanitizeErrorHeader msg]>
                  (<[CONTENT_TYPE := js "image/png"]> ∅);
     responseBody := Text2Png (js "Chart Error: " ++ toDisplayString msg) |}.

Definition failSvg (msg : jsval) (status : Z) : response :=
  {| statusCode := status;
     headers := <[ERROR_HEADER := sanitizeErrorHeader msg]>
                  (<[CONTENT_TYPE := js "image/svg+xml"]> ∅);
     responseBody := SvgMessage (toDisplayString msg) |}.

(** [res.writeHead] (Node's http module) refuses a header value that holds
    a character other than tab, 0x20..0x7e and 0x80..0xff, and throws
    ERR_INVALID_CHAR before anything is written. *)
Definition headerCharAccepted (c : N) : bool :=
  ((c =? 9) || (32 <=? c) && (c <=? 126) || (128 <=? c) && (c <=? 255))%N.

Definition headerAccepted (value : jsstring) : bool :=
  forallb headerCharAccepted value.

(** ** The gate (index.js, authAndRateLimit) *)

Record request := {
  authorization : option jsstring;     (* req.headers.authorization *)
  query : gmap jsstring jsval          (* req.query *)
}.

Definition startsWith (s prefix : jsstring) : bool :=
  bool_decide (take (length prefix) s = prefix).

Definition ANONYMOUS : jsstring := js "_anonymous_".

(** Step 1 of the middleware: the credential of the request. *)
Definition resolveKey (req : request) : jsval :=
  let fromQuery :=
    if truthy (query req !! js "key")
    then default (VStr ANONYMOUS) (query req !! js "key")
    else VStr ANONYMOUS in
  match authorization req with
  | Some authHeader =>
      if startsWith authHeader (js "Bearer ")
      then VStr (drop 7 authHeader)
      else fromQuery
  | None => fromQuery
  end.

(** [apiKeys.has(key)]: the registry is keyed by strings. *)
Definition has (apiKeys : gmap jsstring (gmap jsstring Z)) (key : jsval) : bool :=
  match key with
  | VStr k => bool_decide (is_Some (apiKeys !! k))
  | _ => false
  end.

(** Step 3: the four window checks joined by [||], which stops at the first
    window that fails. *)
Definition checkWindows (limits : gmap jsstring Z) (now : Z)
    (counts : gmap jsstring jsnum) : bool * gmap jsstring jsnum :=
  let sec := now / 1000 in
  let min := now / (1000 * 60) in
  let hour := now / (1000 * 60 * 60) in
  let day := now / (1000 * 60 * 60 * 24) in
  let '(okS, counts1) := check (limits !! js "rps") (js "s") sec counts in
  if negb okS then (false, counts1) else
  let '(okM, counts2) := check (limits !! js "rpm") (js "m") min counts1 in
  if negb okM then (false, counts2) else
  let '(okH, counts3) := check (limits !! js "rph") (js "h") hour counts2 in
  if negb okH then (false, counts3) else
  let '(okD, counts4) := check (limits !! js "rpd") (js "d") day counts3 in
  if negb okD then (false, counts4) else (true, counts4).

Inductive gateOutcome :=
  | Next                      (* next(): the request goes on to its route *)
  | Respond (r : response).   (* the middleware answered itself *)

Definition UNAUTHORIZED : response :=
  failPng (VStr (js "Unauthorized: Invalid API key.")) 401.
Definition TOO_MANY_REQUESTS : response :=
  failPng (VStr (js "Too Many Requests")) 429.

Definition authAndRateLimit (apiKeys : gmap jsstring (gmap jsstring Z))
    (req : request) (now : Z)
    (requestCounts : gmap jsstring (gmap jsstring jsnum))
  : gateOutcome * gmap jsstring (gmap jsstring jsnum) :=
  match resolveKey req with
  | VStr key =>
      match apiKeys !! key with
      | None => (Respond UNAUTHORIZED, requestCounts)
      | Some limits =>
          let counts := default ∅ (requestCounts !! key) in
          let '(ok, counts') := checkWindows limits now counts in
          (if ok then Next else Respond TOO_MANY_REQUESTS,
           <[key := counts']> requestCounts)
      end
  | _ => (Respond UNAUTHORIZED, requestCounts)
  end.

(** ** The store as the objects it is made of

    [requestCounts] and the [counts] objects it holds are plain objects.
    Each inherits from [Object.prototype], and [requestCounts['__proto__']]
    is [Object.prototype] itself: a registered credential of that name has
    its counters written there, where every other [counts] object reads
    them until it has a property of its own.  This second model of the
    middleware keeps the counter properties written on [Object.prototype]
    next to the own properties of the [counts] objects.  The built-in
    members of [Object.prototype] that [requestCounts] inherits under other
    names are functions, which hold counter properties as any object does.
    The map model above is what this one comes to while nothing is written
    on the prototype. *)

Definition PROTO : jsstring := js "__proto__".

Record objectStore := {
  prototypeCounts : gmap jsstring jsnum;                 (* on Object.prototype *)
  ownCounts : gmap jsstring (gmap jsstring jsnum)        (* own properties, per key *)
}.

Definition emptyObjects : objectStore :=
  {| prototypeCounts := ∅; ownCounts := ∅ |}.

(** What [counts] refers to. *)
Inductive countsRef :=
  | ThePrototype                 (* Object.prototype *)
  | OwnObject (key : jsstring)   (* the object found or created for key *)
  | Primitive.                   (* a number inherited under the name key *)

Definition isTruthyNumber (v : option jsnum) : bool :=
  match v with
  | Some (JInt z) => negb (z =? 0)
  | _ => false
  end.

(** [if (!requestCounts[key]) requestCounts[key] = {}] followed by
    [counts = requestCounts[key]]. *)
Definition countsRefOf (st : objectStore) (key : jsstring) : countsRef * objectStore :=
  if bool_decide (key = PROTO) then (ThePrototype, st)
  else
    match ownCounts st !! key with
    | Some _ => (OwnObject key, st)
    | None =>
        if isTruthyNumber (prototypeCounts st !! key) then (Primitive, st)
        else (OwnObject key,
              {| prototypeCounts := prototypeCounts st;
                 ownCounts := <[key := ∅]> (ownCounts st) |})
    end.

(** [counts[p]]: an own property first, then the prototype chain. *)
Definition getCounter (st : objectStore) (counts : countsRef) (p : jsstring)
  : option jsnum :=
  match counts with
  | OwnObject key =>
      match default ∅ (ownCounts st !! key) !! p with
      | Some v => Some v
      | None => prototypeCounts st !! p
      end
  | ThePrototype | Primitive => prototypeCounts st !! p
  end.

(** [counts[p] = v]: an own property of the object; an assignment to a
    property of a number is dropped. *)
Definition setCounter (st : objectStore) (counts : countsRef) (p : jsstring)
    (v : jsnum) : objectStore :=
  match counts with
  | ThePrototype =>
      {| prototypeCounts := <[p := v]> (prototypeCounts st);
         ownCounts := ownCounts st |}
  | OwnObject key =>
      {| prototypeCounts := prototypeCounts st;
         ownCounts := <[key := <[p := v]> (default ∅ (ownCounts st !! key))]>
                        (ownCounts st) |}
  | Primitive => st
  end.

Definition checkOnObject (limit : option Z) (unit : jsstring) (timestamp : Z)
    (counts : countsRef) (st : objectStore) : bool * objectStore :=
  match limit with
  | None => (true, st)
  | Some l =>
      if l =? 0 then (false, st)
      else
        let st' :=
          if strictNotEqual (getCounter st counts (tsKey unit)) timestamp
          then setCounter (setCounter st counts (tsKey unit) (JInt timestamp))
                 counts (countKey unit) (JInt 1)
          else setCounter st counts (countKey unit)
                 (addOne (getCounter st counts (countKey unit))) in
        (lessEq (getCounter st' counts (countKey unit)) l, st')
  end.

Definition checkWindowsOnObject (limits : gmap jsstring Z) (now : Z)
    (counts : countsRef) (st : objectStore) : bool * objectStore :=
  let sec := now / 1000 in
  let min := now / (1000 * 60) in
  let hour := now / (1000 * 60 * 60) in
  let day := now / (1000 * 60 * 60 * 24) in
  let '(okS, st1) := checkOnObject (limits !! js "rps") (js "s") sec counts st in
  if negb okS then (false, st1) else
  let '(okM, st2) := checkOnObject (limits !! js "rpm") (js "m") min counts st1 in
  if negb okM then (false, st2) else
  let '(okH, st3) := checkOnObject (limits !! js "rph") (js "h") hour counts st2 in
  if negb okH then (false, st3) else
  let '(okD, st4) := checkOnObject (limits !! js "rpd") (js "d") day counts st3 in
  if negb okD then (false, st4) else (true, st4).

Definition authAndRateLimitOnObjects (apiKeys : gmap jsstring (gmap jsstring Z))
    (req : request) (now : Z) (st : objectStore) : gateOutcome * objectStore :=
  match resolveKey req with
  | VStr key =>
      match apiKeys !! key with
      | None => (Respond UNAUTHORIZED, st)
      | Some limits =>
          let '(counts, st0) := countsRefOf st key in
          let '(ok, st') := checkWindowsOnObject limits now counts st0 in
          (if ok then Next else Respond TOO_MANY_REQUESTS, st')
      end
  | _ => (Respond UNAUTHORIZED, st)
  end.

(** ** Route handlers (index.js, below the middleware) *)

(** What a collaborator yields: a value (a returned value, a resolved
    promise) or an error (a thrown exception, a rejected promise). *)
Inductive result (A : Type) :=
  | Resolved (a : A)
  | Rejected (err : jsval).
Arguments Resolved {A} a.
Arguments Rejected {A} err.

(** What a handler does with a request. *)
Inductive outcome :=
  | Responded (r : response)   (* one response was written *)
  | Threw (err : jsval)        (* an exception left the handler *)
  | Unanswered (err : jsval).  (* a promise was rejected with nobody to catch
                                  it: nothing is written *)

(** [x.method(...)] where [x] is undefined or has no such method. *)
Definition TYPE_ERROR : jsval := VObj (js "TypeError").

(** What [res.writeHead] throws at a header value it refuses. *)
Definition INVALID_CHAR : jsval := VObj (js "TypeError [ERR_INVALID_CHAR]").

(** A failure writer at work: [res.writeHead] accepts the diagnostic header
    and the response goes out, or it throws. *)
Definition writeFailure (r : response) : outcome :=
  if headerAccepted (default [] (headers r !! ERROR_HEADER))
  then Responded r
  else Threw INVALID_CHAR.

(** An exception inside a promise callback or an async function rejects a
    promise that nobody awaits. *)
Definition inPromise (o : outcome) : outcome :=
  match o with
  | Threw err => Unanswered err
  | _ => o
  end.

(** The arguments of [renderChartJs]. *)
Record renderJob := {
  jobWidth : option jsval;
  jobHeight : option jsval;
  jobBackgroundColor : option jsval;
  jobDevicePixelRatio : option jsval;
  jobVersion : option jsval;
  jobFormat : option jsval;
  jobChart : option jsval
}.

(** The [opts] object of the chart routes; [failFn] and [onRenderHandler]
    are passed alongside. *)
Record chartOpts := {
  optChart : option jsval;
  optHeight : option jsval;
  optWidth : option jsval;
  optBackgroundColor : option jsval;
  optDevicePixelRatio : option jsval;
  optVersion : option jsval;
  optEncoding : option jsval;
  optFormat : jsstring
}.

Record qrOptions := {
  qrMargin : option jsval;
  qrWidth : jsval;
  qrErrorCorrectionLevel : option jsval;
  qrColor : option (jsval * jsval)
}.

Record graphvizOpts := {
  gvFormat : option jsval;
  gvEngine : jsstring;
  gvSize : option (option jsval * option jsval)
}.

(** What the legacy translator [toChartJs] returns. *)
Record converted := {
  convChart : option jsval;
  convWidth : option jsval;
  convHeight : option jsval;
  convBackgroundColor : option jsval
}.

Definition CACHE_CONTROL : jsstring := js "Cache-Control".
Definition CONTENT_LENGTH : jsstring := js "Content-Length".

Definition MISSING_CHART : jsval := VStr (js "You are missing variable `c` or `chart`").
Definition MISSING_TEXT : jsval := VStr (js "You are missing variable `text`").

Section Handlers.

(** [app.get('env')] is development or test. *)
Variable isDev : bool.
(** [String.prototype.toLowerCase]. *)
Variable toLowerCase : jsstring -> jsstring.
(** Imported from lib/qr. *)
Variable DEFAULT_QR_SIZE : Z.
(** The collaborators. *)
Variable renderChartJs : renderJob -> result (list N).
Variable renderQr : jsstring -> option jsval -> option jsval -> qrOptions -> result (list N).
Variable renderGraphviz : option jsval -> graphvizOpts -> result (list N).
Variable getPdfBufferFromPng : list N -> result (list N).
Variable getPdfBufferWithText : jsval -> result (list N).
Variable toChartJs : gmap jsstring jsval -> result converted.
Variable parseSize : option jsval -> result (option jsval * option jsval).
Variable javascriptStringify : option jsval -> jsstring.
(** [Buffer.from(chart, 'base64').toString('utf8')]. *)
Variable decodeBase64 : option jsval -> result jsstring.

Definition cacheControl : jsstring :=
  if isDev then js "no-cache" else js "public, max-age=604800".

(** [res.writeHead(200, {Content-Type, Content-Length, Cache-Control})]
    followed by [res.end(buf)]. *)
Definition writeBuffer (contentType : jsstring) (buf : list N) : response :=
  {| statusCode := 200;
     headers := <[CACHE_CONTROL := cacheControl]>
                  (<[CONTENT_LENGTH := numberToString (Z.of_nat (length buf))]>
                     (<[CONTENT_TYPE := contentType]> ∅));
     responseBody := Buffer buf |}.

(** [res.type(contentType).set({Cache-Control}).send(buf).end()]. *)
Definition sendBuffer (contentType : jsstring) (buf : list N) : response :=
  {| statusCode := 200;
     headers := <[CACHE_CONTROL := cacheControl]>
                  (<[CONTENT_TYPE := contentType]> ∅);
     responseBody := Buffer buf |}.

(** [failPdf] is an async function: what it throws rejects its promise. *)
Definition failPdf (msg : jsval) : outcome :=
  match getPdfBufferWithText msg with
  | Resolved buf =>
      inPromise
        (writeFailure
           {| statusCode := 500;
              headers := <[ERROR_HEADER := sanitizeErrorHeader msg]>
                           (<[CONTENT_TYPE := js "application/pdf"]> ∅);
              responseBody := Buffer buf |})
  | Rejected err => Unanswered err
  end.

(** [failPng] and [failSvg] as [opts.failFn]: called with two arguments,
    so the status is the default 500. *)
Definition failPngFn (msg : jsval) : outcome := writeFailure (failPng msg 500).
Definition failSvgFn (msg : jsval) : outcome := writeFailure (failSvg msg 500).

(** [parseInt(v, 10) || d]. *)
Definition parseIntOr (v : option jsval) (d : Z) : Z :=
  match parseIntVal v with
  | Some n => if n =? 0 then d else n
  | None => d
  end.

Definition doChartjsRender (opts : chartOpts) (failFn : jsval -> outcome)
    (onRenderHandler : list N -> result response) : outcome :=
  if negb (truthy (optChart opts)) then failFn MISSING_CHART
  else
    let width := parseIntOr (optWidth opts) 500 in
    let height := parseIntOr (optHeight opts) 300 in
    let untrustedInput : result (option jsval) :=
      if bool_decide (optEncoding opts = Some (VStr (js "base64")))
      then match decodeBase64 (optChart opts) with
           | Resolved text => Resolved (Some (VStr text))
           | Rejected err => Rejected err
           end
      else Resolved (optChart opts) in
    match untrustedInput with
    | Rejected err => failFn err
    | Resolved input =>
        match
          renderChartJs
            {| jobWidth := Some (VNum width);
               jobHeight := Some (VNum height);
               jobBackgroundColor := optBackgroundColor opts;
               jobDevicePixelRatio := optDevicePixelRatio opts;
               jobVersion := orElse (optVersion opts) (Some (VStr (js "2.9.4")));
               jobFormat := Some (VStr (optFormat opts));
               jobChart := input |}
        with
        | Resolved buf =>
            match onRenderHandler buf with
            | Resolved r => Responded r
            | Rejected err => inPromise (failFn err)
            end
        | Rejected err => inPromise (failFn err)
        end
    end.

Definition renderChartToPng (opts : chartOpts) : outcome :=
  doChartjsRender opts failPngFn
    (fun buf => Resolved (sendBuffer (js "image/png") buf)).

Definition renderChartToSvg (opts : chartOpts) : outcome :=
  doChartjsRender opts failSvgFn
    (fun buf => Resolved (sendBuffer (js "image/svg+xml") buf)).

Definition renderChartToPdf (opts : chartOpts) : outcome :=
  doChartjsRender opts failPdf
    (fun buf =>
       match getPdfBufferFromPng buf with
       | Resolved pdfBuf => Resolved (writeBuffer (js "application/pdf") pdfBuf)
       | Rejected err => Rejected err
       end).

Definition handleGraphviz (req : request) (opts : graphvizOpts) : outcome :=
  let isPng := bool_decide (gvFormat opts = Some (VStr (js "png"))) in
  match renderGraphviz (query req !! js "chl") opts with
  | Resolved buf =>
      Responded
        {| statusCode := 200;
           headers := <[CONTENT_TYPE :=
                          if isPng then js "image/png" else js "image/svg+xml"]> ∅;
           responseBody := Buffer buf |}
  | Rejected err =>
      let msg := VStr (js "Graph Error: " ++ toDisplayString err) in
      if isPng then inPromise (writeFailure (failPng msg 500))
      else inPromise (writeFailure (failSvg msg 500))
  end.

Definition handleGChart (req : request) : outcome :=
  let q := query req in
  match q !! js "cht" with
  | Some (VStr cht) =>
      if startsWith cht (js "gv") then
        let format := q !! js "chof" in
        let engine :=
          if bool_decide (58%N ∈ cht)
          then default [] (split 58 cht !! 1%nat)
          else js "dot" in
        if truthy (q !! js "chs") then
          match parseSize (q !! js "chs") with
          | Resolved size =>
              handleGraphviz req
                {| gvFormat := format; gvEngine := engine; gvSize := Some size |}
          | Rejected err => Threw err
          end
        else
          handleGraphviz req
            {| gvFormat := format; gvEngine := engine; gvSize := None |}
      else if bool_decide (cht = js "qr") then
        match q !! js "chs" with
        | Some (VStr chs) =>
            let size := parseIntArg (split 120 chs !! 0%nat) in
            let qrData := q !! js "chl" in
            match orElse (q !! js "chld") (Some (VStr [])) with
            | Some (VStr chld) =>
                let chldVals := split 124 chld in
                let ecLevel :=
                  orElse (VStr <$> chldVals !! 0%nat) (Some (VStr (js "L"))) in
                let margin :=
                  orElse (VStr <$> chldVals !! 1%nat) (Some (VNum 4)) in
                match
                  renderQr (js "png") (Some (VStr (js "UTF-8"))) qrData
                    {| qrMargin := margin;
                       qrWidth := numOf size;
                       qrErrorCorrectionLevel := ecLevel;
                       qrColor := None |}
                with
                | Resolved buf => Responded (writeBuffer (js "image/png") buf)
                | Rejected err => inPromise (writeFailure (failPng err 500))
                end
            | _ => Threw TYPE_ERROR
            end
        | _ => Threw TYPE_ERROR
        end
      else
        match toChartJs q with
        | Rejected _ =>
            Responded
              {| statusCode := 500;
                 headers := ∅;
                 responseBody :=
                   Text (js "Sorry, this chart configuration is not supported right now") |}
        | Resolved conv =>
            if bool_decide (q !! js "format" = Some (VStr (js "chartjs-config")))
            then
              Responded
                {| statusCode := 200;
                   headers := <[CONTENT_TYPE := js "application/json"]> ∅;
                   responseBody := Text (javascriptStringify (convChart conv)) |}
            else
              match
                renderChartJs
                  {| jobWidth := convWidth conv;
                     jobHeight := convHeight conv;
                     jobBackgroundColor := convBackgroundColor conv;
                     jobDevicePixelRatio := Some (VNum 1);
                     jobVersion := Some (VStr (js "2.9.4"));
                     jobFormat := None;
                     jobChart := convChart conv |}
              with
              | Resolved buf => Responded (writeBuffer (js "image/png") buf)
              | Rejected err => Unanswered err
              end
        end
  | _ => Threw TYPE_ERROR
  end.

(** [app.get('/chart', ...)]. *)
Definition getChart (req : request) : outcome :=
  let q := query req in
  if truthy (q !! js "cht") then handleGChart req
  else
    match orElse (orElse (q !! js "f") (q !! js "format")) (Some (VStr (js "png"))) with
    | Some (VStr requested) =>
        let outputFormat := toLowerCase requested in
        let opts :=
          {| optChart := orElse (q !! js "c") (q !! js "chart");
             optHeight := orElse (q !! js "h") (q !! js "height");
             optWidth := orElse (q !! js "w") (q !! js "width");
             optBackgroundColor := orElse (q !! js "backgroundColor") (q !! js "bkg");
             optDevicePixelRatio := q !! js "devicePixelRatio";
             optVersion := orElse (q !! js "v") (q !! js "version");
             optEncoding := orElse (q !! js "encoding") (Some (VStr (js "url")));
             optFormat := outputFormat |} in
        if bool_decide (outputFormat = js "pdf") then renderChartToPdf opts
        else if bool_decide (outputFormat = js "svg") then renderChartToSvg opts
        else if bool_decide (outputFormat = []) || bool_decide (outputFormat = js "png")
        then renderChartToPng opts
        else
          Responded
            {| statusCode := 500;
               headers := ∅;
               responseBody := Text (js "Unsupported format " ++ outputFormat) |}
    | _ => Threw TYPE_ERROR
    end.

(** [app.get('/qr', ...)]. *)
Definition getQr (req : request) : outcome :=
  let q := query req in
  let qrText := q !! js "text" in
  if negb (truthy qrText) then writeFailure (failPng MISSING_TEXT 500)
  else
    let format :=
      if bool_decide (q !! js "format" = Some (VStr (js "svg")))
      then js "svg" else js "png" in
    let mode := q !! js "mode" in
    let margin :=
      match q !! js "margin" with
      | None => VNum 4
      | Some m => numOf (parseIntVal (Some m))
      end in
    let ecLevel := orElse (q !! js "ecLevel") None in
    let size :=
      match parseIntVal (q !! js "size") with
      | Some n => if Z.min 3000 n =? 0 then DEFAULT_QR_SIZE else Z.min 3000 n
      | None => DEFAULT_QR_SIZE
      end in
    let darkColor := default (VStr (js "000")) (orElse (q !! js "dark") (Some (VStr (js "000")))) in
    let lightColor := default (VStr (js "fff")) (orElse (q !! js "light") (Some (VStr (js "fff")))) in
    match
      renderQr format mode qrText
        {| qrMargin := Some margin;
           qrWidth := VNum size;
           qrErrorCorrectionLevel := ecLevel;
           qrColor := Some (darkColor, lightColor) |}
    with
    | Resolved buf =>
        Responded
          (writeBuffer
             (if bool_decide (format = js "png")
              then js "image/png" else js "image/svg+xml") buf)
    | Rejected err => inPromise (writeFailure (failPng err 500))
    end.

(** A protected route: the gate first, the handler when it calls [next()]. *)
Definition protected (handler : request -> outcome)
    (apiKeys : gmap jsstring (gmap jsstring Z)) (req : request) (now : Z)
    (requestCounts : gmap jsstring (gmap jsstring jsnum))
  : outcome * gmap jsstring (gmap jsstring jsnum) :=
  match authAndRateLimit apiKeys req now requestCounts with
  | (Next, requestCounts') => (handler req, requestCounts')
  | (Respond r, requestCounts') => (Responded r, requestCounts')
  end.

End Handlers.

(** ** Vocabulary for the statements *)

(** The four windows, in the order the middleware evaluates them. *)
Inductive window := Second | Minute | Hour | Day.

#[global] Instance window_eq_dec : EqDecision window.
Proof. solve_decision. Defined.

Definition WINDOWS : list window := [Second; Minute; Hour; Day].

(** The property of [limits] that holds the bound of a window. *)
Definition limitKey (w : window) : jsstring :=
  match w with
  | Second => js "rps"
  | Minute => js "rpm"
  | Hour => js "rph"
  | Day => js "rpd"
  end.

(** The [unit] argument [check] receives for a window. *)
Definition unitTag (w : window) : jsstring :=
  match w with
  | Second => js "s"
  | Minute => js "m"
  | Hour => js "h"
  | Day => js "d"
  end.

Definition windowMs (w : window) : Z :=
  match w with
  | Second => 1000
  | Minute => 1000 * 60
  | Hour => 1000 * 60 * 60
  | Day => 1000 * 60 * 60 * 24
  end.

(** The time bucket of a window at time [now]. *)
Definition bucket (w : window) (now : Z) : Z := now / windowMs w.

(** The stored bucket id and count of a unit. *)
Definition windowEntry (counts : gmap jsstring jsnum) (unit : jsstring)
  : option jsnum * option jsnum :=
  (counts !! tsKey unit, counts !! countKey unit).

(** What one evaluated check with a non-zero bound does to an entry. *)
Definition bump (timestamp : Z) (entry : option jsnum * option jsnum)
  : option jsnum * option jsnum :=
  if strictNotEqual (fst entry) timestamp
  then (Some (JInt timestamp), Some (JInt 1))
  else (fst entry, Some (addOne (snd entry))).

(** The verdict of the check of window [w] on [counts]. *)
Definition passes (limits : gmap jsstring Z) (now : Z)
    (counts : gmap jsstring jsnum) (w : window) : bool :=
  fst (check (limits !! limitKey w) (unitTag w) (bucket w now) counts).

(** Short-circuit evaluation of the checks of a list of windows. *)
Fixpoint checkList (ws : list window) (limits : gmap jsstring Z) (now : Z)
    (counts : gmap jsstring jsnum) : bool * gmap jsstring jsnum :=
  match ws with
  | [] => (true, counts)
  | w :: rest =>
      let '(ok, counts1) :=
        check (limits !! limitKey w) (unitTag w) (bucket w now) counts in
      if negb ok then (false, counts1) else checkList rest limits now counts1
  end.

(** The windows evaluated before [w] in [ws]. *)
Fixpoint before (w : window) (ws : list window) : list window :=
  match ws with
  | [] => []
  | v :: rest => if bool_decide (v = w) then [] else v :: before w rest
  end.

(** The counters of a credential in the store ([requestCounts[key]], an
    empty object when absent). *)
Definition countsOf (requestCounts : gmap jsstring (gmap jsstring jsnum))
    (key : jsstring) : gmap jsstring jsnum :=
  default ∅ (requestCounts !! key).

(** A sequence of admission checks, each with its clock reading, threaded
    through the store. *)
Fixpoint serve (apiKeys : gmap jsstring (gmap jsstring Z))
    (events : list (request * Z))
    (requestCounts : gmap jsstring (gmap jsstring jsnum))
  : list gateOutcome * gmap jsstring (gmap jsstring jsnum) :=
  match events with
  | [] => ([], requestCounts)
  | (req, now) :: rest =>
      let '(o, requestCounts1) := authAndRateLimit apiKeys req now requestCounts in
      let '(os, requestCounts2) := serve apiKeys rest requestCounts1 in
      (o :: os, requestCounts2)
  end.

(** The same sequence over the object store. *)
Fixpoint serveOnObjects (apiKeys : gmap jsstring (gmap jsstring Z))
    (events : list (request * Z)) (st : objectStore)
  : list gateOutcome * objectStore :=
  match events with
  | [] => ([], st)
  | (req, now) :: rest =>
      let '(o, st1) := authAndRateLimitOnObjects apiKeys req now st in
      let '(os, st2) := serveOnObjects apiKeys rest st1 in
      (o :: os, st2)
  end.

(** No credential is registered under the name by which [requestCounts]
    reaches [Object.prototype], and nothing has been written there. *)
Definition prototypeUntouched (apiKeys : gmap jsstring (gmap jsstring Z))
    (st : objectStore) : Prop :=
  apiKeys !! PROTO = None /\ prototypeCounts st = ∅.

(** How many of the first [S i] events carry the credential [key]. *)
Definition rank (key : jsstring) (events : list (request * Z)) (i : nat) : Z :=
  Z.of_nat (length (filter (fun e => resolveKey (fst e) = VStr key) (take (S i) events))).

(** The bound that one comma-separated part of a limit string gives to
    [unit]: its first colon-separated field must be [unit], one of the four
    limit keys, and [parseInt] of its second field must be a number. *)
Definition contribution (unit : jsstring) (part : jsstring) : option Z :=
  if bool_decide (split 58 part !! 0%nat = Some unit /\ unit ∈ LIMIT_KEYS)
  then parseIntArg (split 58 part !! 1%nat)
  else None.



(** [seen counts w t c]: the counters have recorded [c] checks of window [w]
    in bucket [t]; none when the stored bucket id is not [t]. *)
Definition seen (counts : gmap jsstring jsnum) (w : window) (t c : Z) : Prop :=
  if bool_decide (c = 0)
  then fst (windowEntry counts (unitTag w)) ≠ Some (JInt t)
  else windowEntry counts (unitTag w) = (Some (JInt t), Some (JInt c)).

(** The characters the newline replacement keeps. *)
Definition keptByStrip (c : N) : Prop := c ≠ 13%N /\ c ≠ 10%N.

#[global] Instance keptByStrip_dec c : Decision (keptByStrip c).
Proof. unfold keptByStrip. apply _. Defined.

(** ** Example data

    Registries, requests and collaborators on which the statements below are
    exercised. *)

(** A request carrying [Authorization: Bearer key]. *)
Definition bearer (key : string) : request :=
  {| authorization := Some (js "Bearer " ++ js key); query := ∅ |}.

Definition example_registry : gmap jsstring (gmap jsstring Z) :=
  <[js "K" := parseLimits (Some (js "rpm:2"))]> (<[ANONYMOUS := ∅]> ∅).

Definition two_window_registry : gmap jsstring (gmap jsstring Z) :=
  <[js "K" := parseLimits (Some (js "rps:1,rpm:5"))]> (<[ANONYMOUS := ∅]> ∅).



Definition blocked_registry : gmap jsstring (gmap jsstring Z) :=
  <[js "blocked-user-key" := parseLimits (Some (js "0"))]> (<[ANONYMOUS := ∅]> ∅).

Definition open_registry : gmap jsstring (gmap jsstring Z) :=
  <[js "user-a-key" := parseLimits (Some (js "rpm:60,rpd:1000"))]>
    (<[ANONYMOUS := parseLimits None]> ∅).

Definition demoRenderChartJs (job : renderJob) : result (list N) :=
  Rejected (VStr (js "Invalid chart")).
Definition demoRenderQr (format : jsstring) (mode text : option jsval)
    (opts : qrOptions) : result (list N) :=
  Rejected (VObj (js "Error: code length overflow")).
Definition demoRenderGraphviz (chl : option jsval) (opts : graphvizOpts)
  : result (list N) := Rejected (VObj (js "Error: syntax error")).
Definition demoPdfFromPng (buf : list N) : result (list N) := Resolved buf.
Definition demoPdfWithText (msg : jsval) : result (list N) := Resolved [].
Definition demoToChartJs (q : gmap jsstring jsval) : result converted :=
  Resolved {| convChart := None; convWidth := None; convHeight := None;
              convBackgroundColor := None |}.
Definition demoParseSize (chs : option jsval)
  : result (option jsval * option jsval) := Resolved (None, None).
Definition demoStringify (v : option jsval) : jsstring := js "{}".
Definition demoDecodeBase64 (v : option jsval) : result jsstring := Resolved [].


Definition demoGetQr : request -> outcome := getQr false 150 demoRenderQr.



(** ** Loading the registry (index.js, the start-up loop over process.env) *)

(** [process.env] as the list of its variables, in enumeration order.
    [process.env[name]] is the value of the variable of that name. *)
Definition envGet (env : list (jsstring * jsstring)) (name : jsstring)
  : option jsstring :=
  snd <$> List.find (fun p => bool_decide (fst p = name)) env.

(** [envVar.match(/^authn(\d{1,4})$/)]: the captured index, if any. *)
Definition authMatch (envVar : jsstring) : option jsstring :=
  if startsWith envVar (js "authn") then
    let keyIndex := drop 5 envVar in
    if (1 <=? length keyIndex)%nat && (length keyIndex <=? 4)%nat
       && forallb isDigit keyIndex
    then Some keyIndex else None
  else None.

(** The body of the [for ... in process.env] loop. *)
Definition loadKey (env : list (jsstring * jsstring))
    (apiKeys : gmap jsstring (gmap jsstring Z)) (var : jsstring * jsstring)
  : gmap jsstring (gmap jsstring Z) :=
  match authMatch (fst var) with
  | Some keyIndex =>
      let apiKey := snd var in
      let limitString := envGet env (js "limit" ++ keyIndex) in
      let limits := parseLimits limitString in
      <[apiKey := limits]> apiKeys
  | None => apiKeys
  end.

(** The registry after start-up: the configured keys, then the anonymous
    entry. *)
Definition loadKeys (env : list (jsstring * jsstring))
  : gmap jsstring (gmap jsstring Z) :=
  let apiKeys := fold_left (loadKey env) env ∅ in
  let anonymousLimits := parseLimits (envGet env (js "limita")) in
  <[ANONYMOUS := anonymousLimits]> apiKeys.

(** ** Further vocabulary *)

(** A stored entry as the gate writes it: absent, or a bucket id with an
    integer count of at least 1. *)
Definition wellFormedEntry (entry : option jsnum * option jsnum) : Prop :=
  match entry with
  | (None, None) => True
  | (Some (JInt _), Some (JInt c)) => 1 <= c
  | _ => False
  end.

Definition wellFormedStore (requestCounts : gmap jsstring (gmap jsstring jsnum)) : Prop :=
  forall key unit, wellFormedEntry (windowEntry (countsOf requestCounts key) unit).

(** How many of the first [S i] events carry the credential [key] and fall
    in bucket [t] of window [w]. *)
Definition bucketRank (key : jsstring) (w : window) (t : Z)
    (events : list (request * Z)) (i : nat) : Z :=
  Z.of_nat (length (filter (fun e => resolveKey (fst e) = VStr key /\ bucket w (snd e) = t)
                      (take (S i) events))).

(** The outcomes, in order, of the events that carry the credential [key]. *)
Fixpoint outcomesFor (key : jsstring) (events : list (request * Z))
    (outcomes : list gateOutcome) : list gateOutcome :=
  match events, outcomes with
  | e :: events', o :: outcomes' =>
      if bool_decide (resolveKey (fst e) = VStr key)
      then o :: outcomesFor key events' outcomes'
      else outcomesFor key events' outcomes'
  | _, _ => []
  end.

(** The value of X-quickchart-error, when a response has one, is free of
    carriage returns and line feeds. *)
Definition headerOnOneLine (r : response) : Prop :=
  forall v, headers r !! ERROR_HEADER = Some v -> (13%N ∉ v) /\ (10%N ∉ v).

(** Node-style configuration used in the examples. *)
Definition example_env : list (jsstring * jsstring) :=
  [(js "PORT", js "3400");
   (js "authn0", js "user-a-key"); (js "limit0", js "rpm:60,rpd:1000");
   (js "authn01", js "user-b-key"); (js "limit1", js "1");
   (js "authn12345", js "ignored-key");
   (js "limita", js "rph:100")].

(** The checks of credential [key] arrive in time order as far as window [w]
    can tell: their bucket ids never decrease, and none is below [t0]. *)
Fixpoint timeOrdered (key : jsstring) (w : window) (t0 : Z)
    (events : list (request * Z)) : Prop :=
  match events with
  | [] => True
  | e :: rest =>
      if bool_decide (resolveKey (fst e) = VStr key)
      then t0 <= bucket w (snd e) /\ timeOrdered key w (bucket w (snd e)) rest
      else timeOrdered key w t0 rest
  end.

(** The counters of window [w] hold count [c0] for bucket [t0], or, when
    [c0] is 0, hold no bucket from [t0] on. *)
Definition countedSince (counts : gmap jsstring jsnum) (w : window) (t0 c0 : Z) : Prop :=
  if bool_decide (c0 = 0)
  then forall t, t0 <= t -> fst (windowEntry counts (unitTag w)) ≠ Some (JInt t)
  else windowEntry counts (unitTag w) = (Some (JInt t0), Some (JInt c0)).

(** Three checks at the end of minute 1 and three at the start of minute 2. *)
Definition boundary_burst : list (request * Z) :=
  [(bearer "K", 118000); (bearer "K", 119000); (bearer "K", 119999);
   (bearer "K", 120000); (bearer "K", 120001); (bearer "K", 120002)].

(** What the QR route may hand to the encoder: format png or svg, a non-empty
    text, a width that is the default or a non-zero number of at most 3000,
    a numeric margin (possibly [NaN]) and both colours. *)
Definition qrCallOk (DEFAULT_QR_SIZE : Z) (format : jsstring) (text : option jsval)
    (opts : qrOptions) : Prop :=
  (format = js "png" \/ format = js "svg")
  /\ truthy text = true
  /\ (exists n, qrWidth opts = VNum n
                /\ (n = DEFAULT_QR_SIZE \/ (n <= 3000 /\ n ≠ 0)))
  /\ (exists m, qrMargin opts = Some m /\ (m = VNaN \/ exists z, m = VNum z))
  /\ is_Some (qrColor opts).

(** What the chart routes may hand to the chart renderer: a non-zero integer
    width and height, a version, and the resolved format. *)
Definition chartCallOk (opts : chartOpts) (job : renderJob) : Prop :=
  (exists width, jobWidth job = Some (VNum width) /\ width ≠ 0
                 /\ (parseIntVal (optWidth opts) = None -> width = 500))
  /\ (exists height, jobHeight job = Some (VNum height) /\ height ≠ 0
                     /\ (parseIntVal (optHeight opts) = None -> height = 300))
  /\ truthy (jobVersion job) = true
  /\ (optVersion opts = None -> jobVersion job = Some (VStr (js "2.9.4")))
  /\ jobFormat job = Some (VStr (optFormat opts)).

(** A non-negative integer literal, in the specification's words: a
    non-empty run of decimal digits.  Its value is [digitsValue]. *)
Definition isIntegerLiteral (s : jsstring) : bool :=
  negb (bool_decide (s = [])) && forallb isDigit s.


(** The registry of a deployment that names one of its credentials
    [__proto__]. *)
Definition prototype_env : list (jsstring * jsstring) :=
  [(js "authn0", js "__proto__"); (js "limit0", js "rps:5");
   (js "authn1", js "K"); (js "limit1", js "1")].

(** The chart source handed to the renderer (doChartjsRender: [opts.chart],
    decoded when the encoding is base64). *)
Definition chartInput (decodeBase64 : option jsval -> result jsstring)
    (opts : chartOpts) : result (option jsval) :=
  if bool_decide (optEncoding opts = Some (VStr (js "base64")))
  then match decodeBase64 (optChart opts) with
       | Resolved text => Resolved (Some (VStr text))
       | Rejected err => Rejected err
       end
  else Resolved (optChart opts).

(** The arguments of the call to [renderChartJs] in doChartjsRender. *)
Definition chartJob (opts : chartOpts) (input : option jsval) : renderJob :=
  {| jobWidth := Some (VNum (parseIntOr (optWidth opts) 500));
     jobHeight := Some (VNum (parseIntOr (optHeight opts) 300));
     jobBackgroundColor := optBackgroundColor opts;
     jobDevicePixelRatio := optDevicePixelRatio opts;
     jobVersion := orElse (optVersion opts) (Some (VStr (js "2.9.4")));
     jobFormat := Some (VStr (optFormat opts));
     jobChart := input |}.

(** The ways a chart pipeline fails, each with the message it reports: no
    chart, a chart that does not decode, a render that is rejected, a
    rendered buffer that [onRenderHandler] cannot deliver. *)
Inductive chartFailure (renderChartJs : renderJob -> result (list N))
    (decodeBase64 : option jsval -> result jsstring)
    (onRenderHandler : list N -> result response) (opts : chartOpts)
  : jsval -> Prop :=
  | MissingChart :
      truthy (optChart opts) = false ->
      chartFailure renderChartJs decodeBase64 onRenderHandler opts MISSING_CHART
  | MalformedChart err :
      truthy (optChart opts) = true ->
      chartInput decodeBase64 opts = Rejected err ->
      chartFailure renderChartJs decodeBase64 onRenderHandler opts err
  | RenderRejected input err :
      truthy (optChart opts) = true ->
      chartInput decodeBase64 opts = Resolved input ->
      renderChartJs (chartJob opts input) = Rejected err ->
      chartFailure renderChartJs decodeBase64 onRenderHandler opts err
  | DeliveryRejected input buf err :
      truthy (optChart opts) = true ->
      chartInput decodeBase64 opts = Resolved input ->
      renderChartJs (chartJob opts input) = Resolved buf ->
      onRenderHandler buf = Rejected err ->
      chartFailure renderChartJs decodeBase64 onRenderHandler opts err.


(** The response [failPdf] writes around the document [buf]. *)
Definition pdfFailure (msg : jsval) (buf : list N) : response :=
  {| statusCode := 500;
     headers := <[ERROR_HEADER := sanitizeErrorHeader msg]>
                  (<[CONTENT_TYPE := js "application/pdf"]> ∅);
     responseBody := Buffer buf |}.

(** The message the Graphviz handler reports for the error [err]. *)
Definition graphError (err : jsval) : jsval :=
  VStr (js "Graph Error: " ++ toDisplayString err).

(** What the Graphviz branch of the legacy route may hand to the layout
    engine: the requested output format [chof], and the engine "dot" unless
    the chart type names one after a colon. *)
Definition graphvizCallOk (req : request) (cht : jsstring) (opts : graphvizOpts)
  : Prop :=
  gvFormat opts = query req !! js "chof"
  /\ (58%N ∉ cht -> gvEngine opts = js "dot").

(** * Properties *)

(** ** The counters of one window *)

Lemma countKey_ne_tsKey u u' : countKey u ≠ tsKey u'.
Proof. discriminate. Qed.

Lemma countKey_inj u u' : countKey u = countKey u' -> u = u'.
Proof. unfold countKey. apply app_inv_head. Qed.

Lemma tsKey_inj u u' : tsKey u = tsKey u' -> u = u'.
Proof. unfold tsKey. apply app_inv_head. Qed.

Lemma unitTag_inj w w' : unitTag w = unitTag w' -> w = w'.
Proof. destruct w, w'; (reflexivity || discriminate). Qed.

(** [check] changes the entry of its own unit by [bump] when the bound is
    set and not zero, and not at all otherwise. *)
Lemma check_entry_same limit unit timestamp counts :
  windowEntry (snd (check limit unit timestamp counts)) unit =
  match limit with
  | Some b => if b =? 0 then windowEntry counts unit
              else bump timestamp (windowEntry counts unit)
  | None => windowEntry counts unit
  end.
Proof.
  unfold check, bump, windowEntry. destruct limit as [b|]; [|reflexivity].
  destruct (b =? 0); [reflexivity|]. cbn [fst snd].
  destruct (strictNotEqual (counts !! tsKey unit) timestamp); cbn [fst snd].
  - rewrite lookup_insert_eq.
    rewrite lookup_insert_ne by apply countKey_ne_tsKey.
    by rewrite lookup_insert_eq.
  - rewrite lookup_insert_eq.
    by rewrite lookup_insert_ne by apply countKey_ne_tsKey.
Qed.

(** [check] leaves the entries of the other units alone. *)
Lemma check_entry_other limit unit timestamp counts unit' :
  unit' ≠ unit ->
  windowEntry (snd (check limit unit timestamp counts)) unit' = windowEntry counts unit'.
Proof.
  intros Hne. unfold check, windowEntry. destruct limit as [b|]; [|reflexivity].
  destruct (b =? 0); [reflexivity|]. cbn [fst snd].
  assert (countKey unit ≠ tsKey unit') by apply countKey_ne_tsKey.
  assert (tsKey unit ≠ countKey unit') by (intros E; by apply (countKey_ne_tsKey unit' unit)).
  assert (countKey unit ≠ countKey unit') by (intros E%countKey_inj; congruence).
  assert (tsKey unit ≠ tsKey unit') by (intros E%tsKey_inj; congruence).
  destruct (strictNotEqual (counts !! tsKey unit) timestamp);
    by rewrite !lookup_insert_ne.
Qed.

(** The verdict of [check] is a function of the entry of its unit. *)
Lemma check_verdict limit unit timestamp counts :
  fst (check limit unit timestamp counts) =
  match limit with
  | Some b => if b =? 0 then false
              else lessEq (snd (bump timestamp (windowEntry counts unit))) b
  | None => true
  end.
Proof.
  pose proof (check_entry_same limit unit timestamp counts) as He.
  unfold check in *. destruct limit as [b|]; [|reflexivity].
  destruct (b =? 0); [reflexivity|]. cbn [fst snd] in *.
  rewrite <- He. reflexivity.
Qed.

Lemma strictNotEqual_true stored t :
  stored ≠ Some (JInt t) -> strictNotEqual stored t = true.
Proof.
  destruct stored as [[|z]|]; cbn; try reflexivity.
  intros H. destruct (Z.eqb_spec z t); [congruence|reflexivity].
Qed.

Lemma passes_entry limits now counts counts' w :
  windowEntry counts' (unitTag w) = windowEntry counts (unitTag w) ->
  passes limits now counts' w = passes limits now counts w.
Proof. intros He. unfold passes. rewrite !check_verdict, He. reflexivity. Qed.

(** ** The chain of checks *)

Lemma forallb_agree {A} (f g : A -> bool) (l : list A) :
  (forall x, x ∈ l -> f x = g x) -> forallb f l = forallb g l.
Proof.
  induction l as [|a l IH]; intros H; [reflexivity|]. cbn [forallb].
  rewrite (H a) by left. rewrite IH; [reflexivity|].
  intros x Hx. apply H. by right.
Qed.

Lemma checkWindows_checkList limits now counts :
  checkWindows limits now counts = checkList WINDOWS limits now counts.
Proof.
  unfold checkWindows, WINDOWS, checkList, bucket, windowMs, limitKey, unitTag.
  repeat (match goal with
          | |- context [check ?l ?u ?t ?c] => destruct (check l u t c) as [[] ?]
          end; cbn [negb]; try reflexivity).
Qed.

(** The chain admits exactly when every window passes on the counters it
    started from. *)
Lemma checkList_verdict ws limits now counts :
  NoDup ws ->
  fst (checkList ws limits now counts) = forallb (passes limits now counts) ws.
Proof.
  revert counts. induction ws as [|w ws IH]; intros counts Hnd; [reflexivity|].
  apply NoDup_cons in Hnd as [Hw Hnd]. cbn [checkList forallb].
  unfold passes at 1.
  destruct (check (limits !! limitKey w) (unitTag w) (bucket w now) counts)
    as [ok counts1] eqn:Hc. cbn [fst].
  destruct ok; cbn [negb andb]; [|reflexivity].
  rewrite IH by assumption.
  apply forallb_agree. intros v Hv. apply passes_entry.
  replace counts1 with (snd (check (limits !! limitKey w) (unitTag w) (bucket w now) counts))
    by (rewrite Hc; reflexivity).
  apply check_entry_other. intros E%unitTag_inj. congruence.
Qed.

Lemma before_subset w ws v : v ∈ before w ws -> v ∈ ws.
Proof.
  induction ws as [|x ws IH]; cbn [before]; [done|].
  case_bool_decide; [by intros ?%elem_of_nil|].
  intros [->|Hv]%elem_of_cons; [left|right; auto].
Qed.

(** The entry of a window after the chain: bumped by its own check when the
    chain reaches it, untouched when an earlier window stopped the chain. *)
Lemma checkList_entry ws limits now counts w :
  NoDup ws ->
  windowEntry (snd (checkList ws limits now counts)) (unitTag w) =
  if bool_decide (w ∈ ws) && forallb (passes limits now counts) (before w ws)
  then windowEntry
         (snd (check (limits !! limitKey w) (unitTag w) (bucket w now) counts))
         (unitTag w)
  else windowEntry counts (unitTag w).
Proof.
  revert counts. induction ws as [|w0 ws IH]; intros counts Hnd.
  { cbn [checkList snd]. rewrite bool_decide_eq_false_2 by apply not_elem_of_nil.
    reflexivity. }
  apply NoDup_cons in Hnd as [Hw0 Hnd]. cbn [checkList before].
  pose proof (check_verdict (limits !! limitKey w0) (unitTag w0) (bucket w0 now) counts) as Hv.
  pose proof (fun u => check_entry_other (limits !! limitKey w0) (unitTag w0)
                         (bucket w0 now) counts u) as Ho.
  fold (passes limits now counts w0) in Hv.
  destruct (check (limits !! limitKey w0) (unitTag w0) (bucket w0 now) counts)
    as [ok counts1] eqn:Hc. cbn [fst snd] in *.
  destruct (decide (w0 = w)) as [Heq|Heq].
  - subst w0. rewrite (bool_decide_eq_true_2 (w = w)) by reflexivity.
    rewrite bool_decide_eq_true_2 by left. cbn [forallb andb].
    rewrite Hc. cbn [snd]. destruct ok; cbn [negb snd]; [|reflexivity].
    rewrite IH by assumption.
    rewrite (bool_decide_eq_false_2 (w ∈ ws)) by assumption. reflexivity.
  - assert (unitTag w ≠ unitTag w0) as Hu by (intros E%unitTag_inj; congruence).
    rewrite (bool_decide_eq_false_2 (w0 = w)) by assumption.
    cbn [forallb]. unfold passes at 1. rewrite Hc. cbn [fst].
    destruct ok; cbn [negb andb snd].
    + rewrite IH by assumption.
      assert (bool_decide (w ∈ w0 :: ws) = bool_decide (w ∈ ws)) as ->.
      { apply bool_decide_ext. rewrite elem_of_cons. intuition congruence. }
      assert (forallb (passes limits now counts1) (before w ws)
              = forallb (passes limits now counts) (before w ws)) as ->.
      { apply forallb_agree. intros v Hvin%before_subset. apply passes_entry.
        apply Ho. intros E%unitTag_inj. congruence. }
      rewrite !check_entry_same, (Ho _ Hu). reflexivity.
    + rewrite andb_false_r. by apply Ho.
Qed.

Lemma NoDup_WINDOWS : NoDup WINDOWS.
Proof. by apply (bool_decide_unpack _). Qed.

Lemma before_ne w ws v : v ∈ before w ws -> v ≠ w.
Proof.
  induction ws as [|x ws IH]; cbn [before]; [by intros ?%elem_of_nil|].
  case_bool_decide; [by intros ?%elem_of_nil|].
  intros [->|Hv]%elem_of_cons; auto.
Qed.

Lemma elem_of_WINDOWS w : w ∈ WINDOWS.
Proof. destruct w; unfold WINDOWS; repeat ((by left) || right). Qed.

(** ** The gate on a known credential *)

Lemma gate_known apiKeys req now requestCounts key limits :
  resolveKey req = VStr key ->
  apiKeys !! key = Some limits ->
  authAndRateLimit apiKeys req now requestCounts =
  (if forallb (passes limits now (countsOf requestCounts key)) WINDOWS
   then Next else Respond TOO_MANY_REQUESTS,
   <[key := snd (checkList WINDOWS limits now (countsOf requestCounts key))]>
     requestCounts).
Proof.
  intros Hk Hl. unfold authAndRateLimit. rewrite Hk, Hl.
  rewrite checkWindows_checkList. fold (countsOf requestCounts key).
  rewrite <- (checkList_verdict WINDOWS) by apply NoDup_WINDOWS.
  destruct (checkList WINDOWS limits now (countsOf requestCounts key)) as [[] ?];
    reflexivity.
Qed.

Lemma countsOf_insert requestCounts key counts :
  countsOf (<[key := counts]> requestCounts) key = counts.
Proof. unfold countsOf. by rewrite lookup_insert_eq. Qed.

Lemma gate_other_credential apiKeys req now requestCounts key :
  resolveKey req ≠ VStr key ->
  countsOf (snd (authAndRateLimit apiKeys req now requestCounts)) key
  = countsOf requestCounts key.
Proof.
  intros Hk. unfold authAndRateLimit.
  destruct (resolveKey req) as [k| | |]; try reflexivity.
  destruct (apiKeys !! k); [|reflexivity].
  destruct (checkWindows _ _ _) as [ok counts']. cbn [snd]. unfold countsOf.
  rewrite lookup_insert_ne by congruence. reflexivity.
Qed.

(** ** What an admission check does to the counters *)

Lemma forallb_elem {A} (f : A -> bool) (l : list A) x :
  forallb f l = true -> x ∈ l -> f x = true.
Proof.
  intros Hall Hx. apply list_elem_of_In in Hx.
  exact (proj1 (forallb_forall f l) Hall x Hx).
Qed.

Lemma forallb_refuted {A} (f : A -> bool) (l : list A) x :
  x ∈ l -> f x = false -> forallb f l = false.
Proof.
  intros Hx Hf. destruct (forallb f l) eqn:Hall; [|reflexivity].
  rewrite (forallb_elem f l x Hall Hx) in Hf. discriminate.
Qed.

Lemma passes_zero limits now counts w :
  limits !! limitKey w = Some 0 -> passes limits now counts w = false.
Proof. intros H0. unfold passes. rewrite check_verdict, H0. reflexivity. Qed.

(** The entry of a configured window after one admission check of a known
    credential. *)
Lemma gate_entry apiKeys req now requestCounts key limits w b :
  resolveKey req = VStr key ->
  apiKeys !! key = Some limits ->
  limits !! limitKey w = Some b ->
  windowEntry
    (countsOf (snd (authAndRateLimit apiKeys req now requestCounts)) key) (unitTag w)
  = if forallb (passes limits now (countsOf requestCounts key)) (before w WINDOWS)
       && negb (b =? 0)
    then bump (bucket w now) (windowEntry (countsOf requestCounts key) (unitTag w))
    else windowEntry (countsOf requestCounts key) (unitTag w).
Proof.
  intros Hk Hreg Hb. rewrite (gate_known _ _ _ _ _ _ Hk Hreg). cbn [snd].
  rewrite countsOf_insert, checkList_entry by apply NoDup_WINDOWS.
  rewrite bool_decide_eq_true_2 by apply elem_of_WINDOWS. cbn [andb].
  rewrite check_entry_same, Hb.
  destruct (forallb _ (before w WINDOWS)), (b =? 0); reflexivity.
Qed.






(** C4. A known credential with a bound equal to 0 on any window is answered
    429 "Too Many Requests" on every admission check, whatever the time and
    the stored counters; the limit strings "0" and "rps:0" are such specs. *)
Theorem zero_bound_blocks_every_request
    (apiKeys : gmap jsstring (gmap jsstring Z)) (req : request) (now : Z)
    (requestCounts : gmap jsstring (gmap jsstring jsnum))
    (key : jsstring) (limits : gmap jsstring Z) (w : window)
    (credential : resolveKey req = VStr key)
    (registered : apiKeys !! key = Some limits)
    (blocked : limits !! limitKey w = Some 0) :
  fst (authAndRateLimit apiKeys req now requestCounts) = Respond TOO_MANY_REQUESTS
  /\ statusCode TOO_MANY_REQUESTS = 429
  /\ parseLimits (Some (js "0")) !! limitKey Second = Some 0
  /\ parseLimits (Some (js "rps:0")) !! limitKey Second = Some 0.
Proof.
  split; [|repeat split].
  rewrite (gate_known _ _ _ _ _ _ credential registered). cbn [fst].
  rewrite (forallb_refuted _ _ w (elem_of_WINDOWS w)); [reflexivity|].
  by apply passes_zero.
Qed.

Lemma zero_bound_blocks_every_request_witness :
  fst (authAndRateLimit blocked_registry (bearer "blocked-user-key") 1700000000000 ∅)
  = Respond TOO_MANY_REQUESTS.
Proof.
  apply (zero_bound_blocks_every_request blocked_registry (bearer "blocked-user-key")
           1700000000000 ∅ (js "blocked-user-key") (parseLimits (Some (js "0"))) Second).
  - reflexivity.
  - reflexivity.
  - reflexivity.
Defined.

(** ** Counting within one bucket (single configured window) *)

Lemma limitKey_inj w w' : limitKey w = limitKey w' -> w = w'.
Proof. destruct w, w'; (reflexivity || discriminate). Qed.

Lemma bump_seen counts w t c :
  0 <= c -> seen counts w t c ->
  bump t (windowEntry counts (unitTag w)) = (Some (JInt t), Some (JInt (c + 1))).
Proof.
  intros Hc Hs. unfold seen in Hs. unfold bump. case_bool_decide.
  - subst c. rewrite strictNotEqual_true by assumption. reflexivity.
  - rewrite Hs. cbn. rewrite Z.eqb_refl. reflexivity.
Qed.

Section SingleWindow.

Variable apiKeys : gmap jsstring (gmap jsstring Z).
Variable key : jsstring.
Variable w : window.
Variable b t : Z.
Hypothesis registered : apiKeys !! key = Some {[ limitKey w := b ]}.
Hypothesis bound_positive : 1 <= b.

Lemma single_passes_other now counts v :
  v ≠ w -> passes {[ limitKey w := b ]} now counts v = true.
Proof.
  intros Hv. unfold passes.
  rewrite lookup_singleton_ne by (intros E%limitKey_inj; congruence).
  reflexivity.
Qed.

Lemma single_passes_all now counts :
  forallb (passes {[ limitKey w := b ]} now counts) WINDOWS
  = passes {[ limitKey w := b ]} now counts w.
Proof.
  pose proof (fun v => single_passes_other now counts v) as Ho.
  destruct w; cbn [WINDOWS forallb];
    rewrite ?Ho by discriminate; rewrite ?andb_true_r; reflexivity.
Qed.

(** One admission check of [key] in bucket [t]: admitted exactly when it is
    among the first [b], and counted either way. *)
Lemma step_same req now requestCounts c :
  resolveKey req = VStr key -> bucket w now = t -> 0 <= c ->
  seen (countsOf requestCounts key) w t c ->
  let r := authAndRateLimit apiKeys req now requestCounts in
  fst r = (if bool_decide (c + 1 <= b) then Next else Respond TOO_MANY_REQUESTS)
  /\ seen (countsOf (snd r) key) w t (c + 1).
Proof.
  intros Hk Ht Hc Hs. cbn zeta.
  rewrite (gate_known _ _ _ _ _ _ Hk registered). cbn [fst snd].
  pose proof (bump_seen _ _ _ _ Hc Hs) as Hb.
  assert ((b =? 0) = false) as Hb0 by lia.
  split.
  - rewrite single_passes_all. unfold passes. rewrite check_verdict.
    rewrite lookup_singleton_eq, Hb0, Ht, Hb. cbn [snd lessEq].
    case_bool_decide; [rewrite (proj2 (Z.leb_le _ _))|rewrite (proj2 (Z.leb_gt _ _))];
      (reflexivity || lia).
  - rewrite countsOf_insert. unfold seen. rewrite bool_decide_eq_false_2 by lia.
    rewrite checkList_entry by apply NoDup_WINDOWS.
    rewrite bool_decide_eq_true_2 by apply elem_of_WINDOWS.
    rewrite (forallb_agree _ (fun _ => true)).
    2:{ intros v Hv%before_ne. by apply single_passes_other. }
    assert (forall l : list window, forallb (fun _ => true) l = true) as ->
      by (induction l; auto).
    cbn [andb]. rewrite check_entry_same, lookup_singleton_eq, Hb0, Ht. exact Hb.
Qed.

Lemma step_other req now requestCounts c :
  resolveKey req ≠ VStr key ->
  seen (countsOf requestCounts key) w t c ->
  seen (countsOf (snd (authAndRateLimit apiKeys req now requestCounts)) key) w t c.
Proof. intros Hk Hs. by rewrite gate_other_credential. Qed.

Lemma rank_cons e events i :
  rank key (e :: events) (S i)
  = (if bool_decide (resolveKey (fst e) = VStr key) then 1 else 0) + rank key events i.
Proof.
  unfold rank. rewrite firstn_cons, filter_cons.
  case_bool_decide as Hd; destruct (decide _); try contradiction; cbn [length]; lia.
Qed.

Lemma rank_head e events :
  rank key (e :: events) 0
  = (if bool_decide (resolveKey (fst e) = VStr key) then 1 else 0).
Proof.
  unfold rank. rewrite firstn_cons, firstn_O, filter_cons, filter_nil.
  case_bool_decide as Hd; destruct (decide _); try contradiction; reflexivity.
Qed.

Lemma rank_nonneg events i : 0 <= rank key events i.
Proof. unfold rank. lia. Qed.

Lemma serve_counting events : forall requestCounts c i req now,
  0 <= c ->
  seen (countsOf requestCounts key) w t c ->
  Forall (fun e => resolveKey (fst e) = VStr key -> bucket w (snd e) = t) events ->
  events !! i = Some (req, now) ->
  resolveKey req = VStr key ->
  fst (serve apiKeys events requestCounts) !! i
  = Some (if bool_decide (c + rank key events i <= b)
          then Next else Respond TOO_MANY_REQUESTS).
Proof.
  induction events as [|[req0 now0] events IH];
    intros requestCounts c i req now Hc Hs Hall Hi Hk; [done|].
  apply Forall_cons in Hall as [Hhead Hall]. cbn [fst snd] in Hhead.
  cbn [serve].
  destruct (authAndRateLimit apiKeys req0 now0 requestCounts) as [o s1] eqn:Hstep.
  destruct (serve apiKeys events s1) as [os s2] eqn:Hrest. cbn [fst].
  destruct (decide (resolveKey req0 = VStr key)) as [Hk0|Hk0].
  - destruct (step_same req0 now0 requestCounts c Hk0 (Hhead Hk0) Hc Hs) as [Ho Hs'].
    rewrite Hstep in Ho, Hs'. cbn [fst snd] in Ho, Hs'.
    destruct i as [|i].
    + change ((o :: os) !! 0%nat) with (Some o).
      rewrite rank_head. cbn [fst].
      rewrite (bool_decide_eq_true_2 (resolveKey req0 = VStr key)) by assumption.
      by rewrite Ho.
    + change ((o :: os) !! S i) with (os !! i).
      change (events !! i = Some (req, now)) in Hi.
      rewrite rank_cons. cbn [fst].
      rewrite (bool_decide_eq_true_2 (resolveKey req0 = VStr key)) by assumption.
      replace os with (fst (serve apiKeys events s1)) by (by rewrite Hrest).
      rewrite (IH s1 (c + 1) i req now) by (assumption || lia).
      by rewrite Z.add_assoc.
  - pose proof (step_other req0 now0 requestCounts c Hk0 Hs) as Hs'.
    rewrite Hstep in Hs'. cbn [snd] in Hs'.
    destruct i as [|i].
    + change (Some (req0, now0) = Some (req, now)) in Hi. congruence.
    + change ((o :: os) !! S i) with (os !! i).
      change (events !! i = Some (req, now)) in Hi.
      rewrite rank_cons. cbn [fst].
      rewrite (bool_decide_eq_false_2 (resolveKey req0 = VStr key)) by assumption.
      replace os with (fst (serve apiKeys events s1)) by (by rewrite Hrest).
      by rewrite (IH s1 c i req now).
Qed.

End SingleWindow.

(** ** A window whose count exceeds its bound *)

(** Whatever the other limits of the credential are, a check in a bucket
    whose stored count already exceeds the bound is denied, and the count
    still exceeds the bound afterwards. *)
Lemma exceeded_step apiKeys key limits w b t c req now requestCounts :
  apiKeys !! key = Some limits ->
  limits !! limitKey w = Some b ->
  b < c ->
  windowEntry (countsOf requestCounts key) (unitTag w) = (Some (JInt t), Some (JInt c)) ->
  resolveKey req = VStr key ->
  bucket w now = t ->
  fst (authAndRateLimit apiKeys req now requestCounts) = Respond TOO_MANY_REQUESTS
  /\ exists c', b < c'
       /\ windowEntry
            (countsOf (snd (authAndRateLimit apiKeys req now requestCounts)) key)
            (unitTag w)
          = (Some (JInt t), Some (JInt c')).
Proof.
  intros Hreg Hb Hc He Hk Ht.
  assert (bump t (windowEntry (countsOf requestCounts key) (unitTag w))
          = (Some (JInt t), Some (JInt (c + 1)))) as Hbump.
  { rewrite He. unfold bump. cbn. by rewrite Z.eqb_refl. }
  split.
  - rewrite (gate_known _ _ _ _ _ _ Hk Hreg). cbn [fst].
    rewrite (forallb_refuted _ _ w (elem_of_WINDOWS w)); [reflexivity|].
    unfold passes. rewrite check_verdict, Hb, Ht, Hbump. cbn [snd lessEq].
    destruct (b =? 0); [reflexivity|]. apply Z.leb_gt. lia.
  - rewrite (gate_entry _ _ _ _ _ _ _ _ Hk Hreg Hb), Ht, Hbump, He.
    destruct (_ && _); [exists (c + 1)|exists c]; split; (lia || reflexivity).
Qed.

Lemma exceeded_serve apiKeys key limits w b t events :
  apiKeys !! key = Some limits ->
  limits !! limitKey w = Some b ->
  Forall (fun e => resolveKey (fst e) = VStr key -> bucket w (snd e) = t) events ->
  forall requestCounts c i req now,
    b < c ->
    windowEntry (countsOf requestCounts key) (unitTag w) = (Some (JInt t), Some (JInt c)) ->
    events !! i = Some (req, now) ->
    resolveKey req = VStr key ->
    fst (serve apiKeys events requestCounts) !! i = Some (Respond TOO_MANY_REQUESTS).
Proof.
  intros Hreg Hb Hall. induction Hall as [|[req0 now0] events Hhead _ IH];
    intros requestCounts c i req now Hc He Hi Hk; [done|].
  cbn [fst snd] in Hhead. cbn [serve].
  destruct (authAndRateLimit apiKeys req0 now0 requestCounts) as [o s1] eqn:Hstep.
  destruct (serve apiKeys events s1) as [os s2] eqn:Hrest. cbn [fst].
  destruct (decide (resolveKey req0 = VStr key)) as [Hk0|Hk0].
  - destruct (exceeded_step _ _ _ _ _ _ _ req0 now0 requestCounts
                Hreg Hb Hc He Hk0 (Hhead Hk0)) as [Ho (c' & Hc' & He')].
    rewrite Hstep in Ho, He'. cbn [fst snd] in Ho, He'.
    destruct i as [|i].
    + change ((o :: os) !! 0%nat) with (Some o). by rewrite Ho.
    + change ((o :: os) !! S i) with (os !! i).
      change (events !! i = Some (req, now)) in Hi.
      replace os with (fst (serve apiKeys events s1)) by (by rewrite Hrest).
      by apply (IH s1 c' i req now).
  - pose proof (gate_other_credential apiKeys req0 now0 requestCounts key Hk0) as Hsame.
    rewrite Hstep in Hsame. cbn [snd] in Hsame.
    destruct i as [|i].
    + change (Some (req0, now0) = Some (req, now)) in Hi. congruence.
    + change ((o :: os) !! S i) with (os !! i).
      change (events !! i = Some (req, now)) in Hi.
      replace os with (fst (serve apiKeys events s1)) by (by rewrite Hrest).
      apply (IH s1 c i req now); try assumption. by rewrite Hsame.
Qed.

Lemma rank_mono key events i j : (i <= j)%nat -> rank key events i <= rank key events j.
Proof.
  intros Hij. unfold rank.
  rewrite <- (take_drop (S i) (take (S j) events)), take_take.
  rewrite (Nat.min_l (S i) (S j)) by lia.
  rewrite filter_app, length_app. lia.
Qed.

(** On the map model: for a credential limited on a single window with
    bound [b >= 1], among the admission checks of that credential that fall
    in one bucket of the window (starting from a store that has not yet
    opened the bucket), the first [b] are admitted and every later one is
    answered 429; once a check in the bucket has been denied, every later
    check in the bucket is denied too; and from any store whose count for
    the bucket already exceeds the bound, every check in the bucket is
    denied. *)
Lemma serve_first_b_then_denies
    (apiKeys : gmap jsstring (gmap jsstring Z)) (key : jsstring) (w : window)
    (b t : Z) (events : list (request * Z))
    (requestCounts : gmap jsstring (gmap jsstring jsnum))
    (registered : apiKeys !! key = Some {[ limitKey w := b ]})
    (bound : 1 <= b <= MAX_SAFE_INTEGER)
    (same_bucket :
       Forall (fun e => resolveKey (fst e) = VStr key -> bucket w (snd e) = t) events)
    (fresh : fst (windowEntry (countsOf requestCounts key) (unitTag w)) ≠ Some (JInt t)) :
  let outcomes := fst (serve apiKeys events requestCounts) in
  statusCode TOO_MANY_REQUESTS = 429
  /\ (forall i req now,
        events !! i = Some (req, now) -> resolveKey req = VStr key ->
        outcomes !! i
        = Some (if bool_decide (rank key events i <= b)
                then Next else Respond TOO_MANY_REQUESTS))
  /\ (forall i j req now req' now',
        (i <= j)%nat ->
        events !! i = Some (req, now) -> resolveKey req = VStr key ->
        events !! j = Some (req', now') -> resolveKey req' = VStr key ->
        outcomes !! i = Some (Respond TOO_MANY_REQUESTS) ->
        outcomes !! j = Some (Respond TOO_MANY_REQUESTS))
  /\ (forall requestCounts' c i req now,
        windowEntry (countsOf requestCounts' key) (unitTag w)
        = (Some (JInt t), Some (JInt c)) ->
        b < c ->
        events !! i = Some (req, now) -> resolveKey req = VStr key ->
        fst (serve apiKeys events requestCounts') !! i
        = Some (Respond TOO_MANY_REQUESTS)).
Proof.
  intros outcomes. subst outcomes.
  assert (forall i req now,
        events !! i = Some (req, now) -> resolveKey req = VStr key ->
        fst (serve apiKeys events requestCounts) !! i
        = Some (if bool_decide (rank key events i <= b)
                then Next else Respond TOO_MANY_REQUESTS)) as Hcount.
  { intros i req now Hi Hk.
    rewrite (serve_counting apiKeys key w b t registered (proj1 bound)
               events requestCounts 0 i req now); try assumption; try lia.
    reflexivity. }
  split; [reflexivity|]. split; [exact Hcount|]. split.
  - intros i j req now req' now' Hij Hi Hk Hj Hk' Hdenied.
    rewrite (Hcount i req now Hi Hk) in Hdenied.
    rewrite (Hcount j req' now' Hj Hk').
    pose proof (rank_mono key events i j Hij).
    case_bool_decide; [discriminate|].
    rewrite bool_decide_eq_false_2 by lia. reflexivity.
  - intros requestCounts' c i req now He Hc Hi Hk.
    apply (exceeded_serve apiKeys key _ w b t events registered
             (lookup_singleton_eq _ _) same_bucket requestCounts' c i req now);
      assumption.
Qed.

(** C1 fails on the code when a credential is named [__proto__].  The
    start-up loop registers it like any other ([prototype_env]: "__proto__"
    with five requests per second, "K" with one).  Its counters are written
    on [Object.prototype]; the fresh [counts] object of "K" inherits the
    bucket id and the count, so that the first check of "K" in that second
    counts as the second one and is answered 429, although its bound is 1.
    Served alone, the same check is admitted. *)
Theorem prototype_credential_denies_first_check :
  loadKeys prototype_env !! js "K" = Some {[ limitKey Second := 1 ]}
  /\ fst (serveOnObjects (loadKeys prototype_env)
            [(bearer "__proto__", 1000); (bearer "K", 1500)] emptyObjects)
     = [Next; Respond TOO_MANY_REQUESTS]
  /\ bucket Second 1500 = 1
  /\ fst (windowEntry
            (countsOf (ownCounts (snd (serveOnObjects (loadKeys prototype_env)
                                         [(bearer "__proto__", 1000)] emptyObjects)))
               (js "K")) (unitTag Second)) ≠ Some (JInt 1)
  /\ fst (serveOnObjects (loadKeys prototype_env) [(bearer "K", 1500)] emptyObjects)
     = [Next].
Proof. repeat split; try reflexivity. vm_compute. discriminate. Qed.

(** ** Credential resolution and unknown credentials *)

Lemma startsWith_app prefix rest : startsWith (prefix ++ rest) prefix = true.
Proof.
  unfold startsWith. apply bool_decide_eq_true_2.
  by rewrite take_app_length.
Qed.

Lemma has_lookup apiKeys key :
  has apiKeys (VStr key) = false -> apiKeys !! key = None.
Proof.
  cbn [has]. intros H%bool_decide_eq_false. by apply eq_None_not_Some.
Qed.

(** C5. The credential of a request is the rest of the Authorization header
    after "Bearer " when the header has that prefix; else the [key] query
    parameter when it is present (truthy); else the anonymous sentinel.
    When the registry does not hold the resolved credential the answer is
    401 "Unauthorized" and the counter store is returned as it was given,
    so the answer does not depend on it. *)
Theorem unknown_credential_is_unauthorized
    (apiKeys : gmap jsstring (gmap jsstring Z)) (req : request) (now : Z)
    (requestCounts : gmap jsstring (gmap jsstring jsnum))
    (unknown : has apiKeys (resolveKey req) = false) :
  authAndRateLimit apiKeys req now requestCounts = (Respond UNAUTHORIZED, requestCounts)
  /\ statusCode UNAUTHORIZED = 401
  /\ (forall requestCounts' now',
        fst (authAndRateLimit apiKeys req now' requestCounts') = Respond UNAUTHORIZED)
  /\ (forall token,
        authorization req = Some (js "Bearer " ++ token) -> resolveKey req = VStr token)
  /\ ((authorization req = None
       \/ exists header, authorization req = Some header
                         /\ startsWith header (js "Bearer ") = false) ->
      (truthy (query req !! js "key") = true ->
       Some (resolveKey req) = query req !! js "key")
      /\ (truthy (query req !! js "key") = false -> resolveKey req = VStr ANONYMOUS)).
Proof.
  assert (forall s n, authAndRateLimit apiKeys req n s = (Respond UNAUTHORIZED, s)) as Hgate.
  { intros s n. unfold authAndRateLimit.
    destruct (resolveKey req) as [k| | |]; try reflexivity.
    by rewrite (has_lookup _ _ unknown). }
  split; [apply Hgate|]. split; [reflexivity|]. split.
  { intros s n. by rewrite Hgate. }
  split.
  - intros token Hh. unfold resolveKey. rewrite Hh, startsWith_app.
    by rewrite drop_app_length'.
  - intros Hheader.
    assert (resolveKey req =
            if truthy (query req !! js "key")
            then default (VStr ANONYMOUS) (query req !! js "key")
            else VStr ANONYMOUS) as ->.
    { unfold resolveKey. destruct Hheader as [->|(h & -> & ->)]; reflexivity. }
    split; intros Ht; rewrite Ht; [|reflexivity].
    destruct (query req !! js "key") as [v|]; [reflexivity|discriminate].
Qed.

Lemma unknown_credential_is_unauthorized_witness :
  fst (authAndRateLimit open_registry {| authorization := None; query := ∅ |} 5 ∅) = Next
  /\ authAndRateLimit open_registry (bearer "not-a-key") 5 ∅ = (Respond UNAUTHORIZED, ∅).
Proof.
  split; [reflexivity|].
  apply (unknown_credential_is_unauthorized open_registry (bearer "not-a-key") 5 ∅).
  reflexivity.
Defined.

(** ** Decimal numerals *)

Lemma digitsValue_from acc ds :
  fold_left (fun a c => a * 10 + digitValue c) ds acc
  = acc * 10 ^ Z.of_nat (length ds) + digitsValue ds.
Proof.
  unfold digitsValue. revert acc.
  induction ds as [|d ds IH]; intros acc; cbn [fold_left length].
  - cbn. lia.
  - rewrite IH, (IH (0 * 10 + digitValue d)).
    rewrite Nat2Z.inj_succ, Z.pow_succ_r by lia. lia.
Qed.

Lemma digitsValue_cons d ds :
  digitsValue (d :: ds) = digitValue d * 10 ^ Z.of_nat (length ds) + digitsValue ds.
Proof. unfold digitsValue at 1. cbn [fold_left]. rewrite digitsValue_from. lia. Qed.

Lemma digit_char n :
  0 <= n -> isDigit (Z.to_N (48 + n mod 10)) = true
            /\ digitValue (Z.to_N (48 + n mod 10)) = n mod 10.
Proof.
  intros Hn. unfold isDigit, digitValue.
  assert (0 <= n mod 10 < 10) by (apply Z.mod_pos_bound; lia).
  split; [apply andb_true_intro; split; apply N.leb_le; lia|lia].
Qed.

(** The numeral written by [decimalDigits]: digits only, never empty, and
    denoting [n] in front of what was accumulated. *)
Lemma decimalDigits_spec fuel : forall n acc,
  (0 < fuel)%nat ->
  0 <= n < 10 ^ Z.of_nat fuel ->
  Forall (fun c => isDigit c = true) acc ->
  Forall (fun c => isDigit c = true) (decimalDigits fuel n acc)
  /\ decimalDigits fuel n acc ≠ []
  /\ digitsValue (decimalDigits fuel n acc)
     = n * 10 ^ Z.of_nat (length acc) + digitsValue acc.
Proof.
  induction fuel as [|fuel IH]; intros n acc Hfuel Hn Hacc; [lia|].
  cbn [decimalDigits].
  destruct (digit_char n (proj1 Hn)) as [Hd Hv].
  destruct (Z.ltb_spec n 10) as [Hlt|Hge].
  - split; [by constructor|]. split; [discriminate|].
    rewrite digitsValue_cons, Hv. rewrite Z.mod_small by lia. reflexivity.
  - rewrite Nat2Z.inj_succ, Z.pow_succ_r in Hn by lia.
    destruct (IH (n / 10) (Z.to_N (48 + n mod 10) :: acc)) as (Hall & Hne & Hval).
    + destruct fuel; [cbn in Hn; lia|lia].
    + split; [apply Z.div_pos; lia|].
      apply Z.div_lt_upper_bound; lia.
    + by constructor.
    + split; [exact Hall|]. split; [exact Hne|].
      rewrite Hval, digitsValue_cons, Hv. cbn [length].
      rewrite Nat2Z.inj_succ, Z.pow_succ_r by lia.
      pose proof (Z.div_mod n 10). nia.
Qed.

Lemma digitsFuel_enough n : 0 <= n -> n < 10 ^ Z.of_nat (digitsFuel n).
Proof.
  intros Hn. unfold digitsFuel. rewrite Nat2Z.inj_succ, Z2Nat.id by apply Z.log2_nonneg.
  destruct (Z.eq_dec n 0) as [->|Hne]; [reflexivity|].
  pose proof (Z.log2_spec n ltac:(lia)) as [_ Hlt].
  eapply Z.lt_le_trans; [exact Hlt|].
  apply Z.pow_le_mono_l. pose proof (Z.log2_nonneg n). lia.
Qed.

Lemma digitPrefix_all ds :
  Forall (fun c => isDigit c = true) ds -> digitPrefix ds = ds.
Proof. induction 1 as [|d ds Hd _ IH]; cbn [digitPrefix]; [done|]. by rewrite Hd, IH. Qed.

Lemma digit_not_space c : isDigit c = true -> isStrWhiteSpaceChar c = false.
Proof.
  unfold isDigit, isStrWhiteSpaceChar. intros [H1%N.leb_le H2%N.leb_le]%andb_prop.
  rewrite (proj2 (N.leb_gt c 13)), (proj2 (N.leb_gt 8192 c)) by lia.
  rewrite !(proj2 (N.eqb_neq c _)) by lia.
  by rewrite andb_false_r.
Qed.

(** [parseInt] reads a numeral of digits as the number it denotes. *)
Lemma parseInt_digits ds :
  ds ≠ [] -> Forall (fun c => isDigit c = true) ds ->
  parseInt ds = Some (digitsValue ds).
Proof.
  intros Hne Hall. destruct ds as [|d ds]; [done|].
  pose proof (Forall_inv Hall) as Hd. cbn beta in Hd.
  unfold parseInt. cbn [skipWhiteSpace]. rewrite (digit_not_space d Hd).
  assert ((d =? 45)%N = false /\ (d =? 43)%N = false) as [-> ->].
  { unfold isDigit in Hd. apply andb_prop in Hd as [H1%N.leb_le H2%N.leb_le].
    split; apply N.eqb_neq; lia. }
  rewrite digitPrefix_all by assumption.
  f_equal. lia.
Qed.

Lemma parseInt_minus ds :
  ds ≠ [] -> Forall (fun c => isDigit c = true) ds ->
  parseInt (45%N :: ds) = Some (- digitsValue ds).
Proof.
  intros Hne Hall. unfold parseInt. cbn [skipWhiteSpace].
  change (isStrWhiteSpaceChar 45) with false. cbn match.
  change ((45 =? 45)%N) with true. cbn match.
  rewrite digitPrefix_all by assumption.
  destruct ds; [done|]. f_equal; lia.
Qed.

Lemma numberToString_nonneg n :
  0 <= n ->
  Forall (fun c => isDigit c = true) (numberToString n)
  /\ numberToString n ≠ []
  /\ digitsValue (numberToString n) = n.
Proof.
  intros Hn. unfold numberToString. rewrite (proj2 (Z.ltb_ge n 0)) by assumption.
  destruct (decimalDigits_spec (digitsFuel n) n []) as (Hall & Hne & Hval).
  - unfold digitsFuel. lia.
  - split; [assumption|by apply digitsFuel_enough].
  - constructor.
  - repeat split; try assumption. rewrite Hval. cbn. lia.
Qed.

(** [parseInt(String(n), 10) = n]; [String(n)] is never empty. *)
Lemma parseInt_numberToString n : parseInt (numberToString n) = Some n.
Proof.
  destruct (Z.ltb_spec n 0) as [Hneg|Hpos].
  - unfold numberToString. rewrite (proj2 (Z.ltb_lt n 0)) by assumption.
    destruct (decimalDigits_spec (digitsFuel (- n)) (- n) []) as (Hall & Hne & Hval).
    + unfold digitsFuel. lia.
    + split; [lia|apply digitsFuel_enough; lia].
    + constructor.
    + rewrite parseInt_minus, Hval by assumption. cbn. f_equal. lia.
  - destruct (numberToString_nonneg n Hpos) as (Hall & Hne & Hval).
    by rewrite parseInt_digits, Hval.
Qed.

Lemma numberToString_not_empty n : numberToString n ≠ [].
Proof.
  intros E. pose proof (parseInt_numberToString n) as H. rewrite E in H. discriminate.
Qed.

(** ** Splitting *)

Lemma split_not_nil sep s : split sep s ≠ [].
Proof.
  destruct s as [|c r]; cbn [split]; [discriminate|].
  destruct (c =? sep)%N; [discriminate|]. destruct (split sep r); discriminate.
Qed.

Lemma split_no_sep sep s : sep ∉ s -> split sep s = [s].
Proof.
  induction s as [|c r IH]; intros Hs; [reflexivity|].
  apply not_elem_of_cons in Hs as [Hc Hr]. cbn [split].
  rewrite (proj2 (N.eqb_neq c sep)) by congruence. by rewrite IH.
Qed.

Lemma split_at sep a b : sep ∉ a -> split sep (a ++ sep :: b) = a :: split sep b.
Proof.
  induction a as [|c r IH]; intros Ha.
  - cbn [app split]. by rewrite N.eqb_refl.
  - apply not_elem_of_cons in Ha as [Hc Hr]. cbn [app split].
    rewrite (proj2 (N.eqb_neq c sep)) by congruence. by rewrite IH.
Qed.

Lemma digits_without sep ds :
  isDigit sep = false -> Forall (fun c => isDigit c = true) ds -> sep ∉ ds.
Proof.
  intros Hsep Hall Hin. rewrite Forall_forall in Hall.
  specialize (Hall sep Hin). cbn beta in Hall. congruence.
Qed.

(** ** The limit parser *)

Lemma isPlainNumber_numberToString n : isPlainNumber (numberToString n) = Some n.
Proof.
  unfold isPlainNumber. rewrite parseInt_numberToString.
  by rewrite bool_decide_eq_true_2.
Qed.

Lemma parseLimits_number n : parseLimits (Some (numberToString n)) = {[ js "rps" := n ]}.
Proof.
  unfold parseLimits. pose proof (numberToString_not_empty n) as Hne.
  destruct (numberToString n) as [|c r] eqn:Hs; [done|].
  rewrite <- Hs. by rewrite isPlainNumber_numberToString.
Qed.

Lemma parsePart_lookup limits part unit :
  parsePart limits part !! unit
  = match contribution unit part with
    | Some v => Some v
    | None => limits !! unit
    end.
Proof.
  unfold parsePart, contribution.
  destruct (split 58 part !! 0%nat) as [k|] eqn:Hk.
  2:{ rewrite bool_decide_eq_false_2 by (intros [? _]; discriminate). reflexivity. }
  destruct (decide (k = unit)) as [->|Hne].
  - destruct (decide (unit ∈ LIMIT_KEYS)) as [Hin|Hin].
    + rewrite (bool_decide_eq_true_2 (_ /\ _)) by done.
      rewrite (bool_decide_eq_true_2 (unit ∈ LIMIT_KEYS)) by done.
      destruct (parseIntArg _); [by rewrite lookup_insert_eq|reflexivity].
    + rewrite (bool_decide_eq_false_2 (_ /\ _)) by (intros [_ ?]; done).
      rewrite (bool_decide_eq_false_2 (unit ∈ LIMIT_KEYS)) by done.
      by destruct (parseIntArg _).
  - rewrite (bool_decide_eq_false_2 (_ /\ _)) by (intros [? _]; congruence).
    destruct (parseIntArg _); [|reflexivity].
    case_bool_decide; [by rewrite lookup_insert_ne|reflexivity].
Qed.

(** Folding the parts: for each unit the last contributing part decides. *)
Lemma fold_parsePart_lookup parts : forall limits unit,
  fold_left parsePart parts limits !! unit
  = match last (omap (contribution unit) parts) with
    | Some v => Some v
    | None => limits !! unit
    end.
Proof.
  induction parts as [|p parts IH]; intros limits unit; [reflexivity|].
  cbn [fold_left omap list_omap]. rewrite IH, parsePart_lookup.
  change (omap (contribution unit) (p :: parts))
    with (match contribution unit p with
          | Some v => v :: omap (contribution unit) parts
          | None => omap (contribution unit) parts
          end).
  destruct (contribution unit p) as [v|]; [|reflexivity].
  rewrite last_cons. by destruct (last _).
Qed.

Lemma parseParts_lookup limitString unit :
  parseParts limitString !! unit
  = last (omap (contribution unit) (split 44 limitString)).
Proof.
  unfold parseParts. rewrite fold_parsePart_lookup, lookup_empty.
  by destruct (last _).
Qed.

Lemma parseLimits_parts limitString :
  limitString ≠ [] -> isPlainNumber limitString = None ->
  parseLimits (Some limitString) = parseParts limitString.
Proof.
  intros Hne Hplain. unfold parseLimits.
  destruct limitString; [done|]. by rewrite Hplain.
Qed.

Lemma forallb_isDigit ds : forallb isDigit ds = true -> Forall (fun c => isDigit c = true) ds.
Proof. intros H. apply Forall_forall. intros c Hc. by apply (forallb_elem _ _ _ H). Qed.


(** A run of digits that is not the numeral [String] prints for its value
    (it has leading zeros) is not a plain number, and as a part it has no
    value field: it gives the empty spec. *)
Lemma parseLimits_padded_literal literal :
  isIntegerLiteral literal = true ->
  literal ≠ numberToString (digitsValue literal) ->
  parseLimits (Some literal) = ∅.
Proof.
  intros [Hne Hd%forallb_isDigit]%andb_prop Hpad.
  apply negb_true_iff, bool_decide_eq_false in Hne.
  assert (isPlainNumber literal = None) as Hplain.
  { unfold isPlainNumber. rewrite parseInt_digits by assumption.
    by rewrite bool_decide_eq_false_2 by congruence. }
  rewrite (parseLimits_parts _ Hne Hplain). unfold parseParts.
  rewrite (split_no_sep 44) by (apply digits_without; [reflexivity|assumption]).
  cbn [fold_left]. unfold parsePart.
  rewrite (split_no_sep 58) by (apply digits_without; [reflexivity|assumption]).
  reflexivity.
Qed.



(** C6, as the code has it.  "10" and "rps:10" give the same spec.  For
    every integer [n] from 0 to 2^53 - 1, the numeral of [n] as [String]
    prints it (no sign, no leading zeros) gives the single per-second bound
    [n], as does "rps:" followed by that numeral.  A run of digits that is
    not such a numeral (one with leading zeros) gives the empty spec.
    "rpm:60,rpd:1000" gives exactly the minute bound 60 and the day bound
    1000; "garbage", the empty string and [undefined] give the empty
    spec. *)
Theorem parseLimits_documented_inputs (n : Z) (literal : jsstring)
    (safe : safeInteger n)
    (digits : isIntegerLiteral literal = true)
    (padded : literal ≠ numberToString (digitsValue literal)) :
  numberToString 10 = js "10"
  /\ parseLimits (Some (js "10")) = parseLimits (Some (js "rps:10"))
  /\ parseLimits (Some (numberToString n)) = {[ limitKey Second := n ]}
  /\ parseLimits (Some (js "rps:" ++ numberToString n)) = {[ limitKey Second := n ]}
  /\ isIntegerLiteral (numberToString n) = true
  /\ parseLimits (Some literal) = ∅
  /\ parseLimits (Some (js "rpm:60,rpd:1000"))
     = <[limitKey Minute := 60]> (<[limitKey Day := 1000]> ∅)
  /\ parseLimits (Some (js "garbage")) = ∅
  /\ parseLimits (Some []) = ∅
  /\ parseLimits None = ∅.
Proof.
  split; [reflexivity|]. split; [reflexivity|].
  split; [apply parseLimits_number|].
  destruct safe as [Hn _].
  destruct (numberToString_nonneg n Hn) as (Hall & Hne & Hval).
  split; [|split; [|split; [by apply parseLimits_padded_literal|repeat split; reflexivity]]].
  - set (ds := numberToString n) in *.
    assert ((44%N ∉ ds) /\ (58%N ∉ ds)) as [H44 H58]
      by (split; apply digits_without; (reflexivity || assumption)).
    rewrite parseLimits_parts; [|discriminate|reflexivity].
    unfold parseParts.
    rewrite (split_no_sep 44) by (cbn; rewrite !elem_of_cons; intros [?|[?|[?|[?|?]]]]; done).
    cbn [fold_left]. unfold parsePart.
    change (js "rps:" ++ ds) with (js "rps" ++ 58%N :: ds).
    rewrite split_at by (cbn; rewrite !elem_of_cons, elem_of_nil; intros [?|[?|[?|?]]]; done).
    rewrite split_no_sep by assumption.
    change ([js "rps"; ds] !! 0%nat) with (Some (js "rps")).
    change ([js "rps"; ds] !! 1%nat) with (Some ds). cbn [parseIntArg].
    rewrite parseInt_digits, Hval by assumption.
    rewrite bool_decide_eq_true_2 by (unfold LIMIT_KEYS; left).
    reflexivity.
  - unfold isIntegerLiteral. apply andb_true_intro. split.
    + apply negb_true_iff, bool_decide_eq_false. exact Hne.
    + apply forallb_forall. intros c Hc%list_elem_of_In.
      by apply (proj1 (Forall_forall _ _) Hall).
Qed.

Lemma parseLimits_documented_inputs_witness :
  safeInteger 1000
  /\ parseLimits (Some (js "1000")) = {[ js "rps" := 1000 ]}
  /\ parseLimits (Some (js "rps:1000")) = {[ js "rps" := 1000 ]}
  /\ parseLimits (Some (js "0010")) = ∅.
Proof.
  assert (safeInteger 1000) as Hsafe by (unfold safeInteger, MAX_SAFE_INTEGER; lia).
  split; [exact Hsafe|].
  destruct (parseLimits_documented_inputs 1000 (js "0010") Hsafe)
    as (_ & _ & Hn & Hrps & _ & Hpad & _).
  - reflexivity.
  - discriminate.
  - split; [exact Hn|]. split; [exact Hrps|exact Hpad].
Defined.

(** C6 as stated fails: "007" is a non-negative integer literal, of value 7,
    yet it does not give the per-second bound 7; it gives the empty spec,
    whereas "rps:007" gives the bound 7. *)
Lemma leading_zeros_give_the_empty_spec :
  isIntegerLiteral (js "007") = true
  /\ digitsValue (js "007") = 7
  /\ parseLimits (Some (js "007")) = ∅
  /\ parseLimits (Some (js "rps:007")) = {[ limitKey Second := 7 ]}
  /\ parseLimits (Some (js "007")) ≠ {[ limitKey Second := 7 ]}
  /\ parseLimits (Some (js "007")) ≠ parseLimits (Some (js "rps:007")).
Proof.
  repeat split; try reflexivity; intros E;
    apply (f_equal (fun m => m !! js "rps")) in E; vm_compute in E; discriminate E.
Qed.




(** ** The sanitizer *)

Lemma stripNewlines_cons c r :
  stripNewlines (c :: r)
  = if (c =? 13)%N then
      match r with
      | d :: r' => if (d =? 10)%N then stripNewlines r' else stripNewlines r
      | [] => []
      end
    else if (c =? 10)%N then stripNewlines r
    else c :: stripNewlines r.
Proof. reflexivity. Qed.

(** The regular-expression replacement removes exactly the carriage returns
    and line feeds. *)
Lemma stripNewlines_filter s : stripNewlines s = filter keptByStrip s.
Proof.
  enough (stripNewlines s = filter keptByStrip s
          /\ forall c, stripNewlines (c :: s) = filter keptByStrip (c :: s)) by tauto.
  induction s as [|d r [IHr IHc]].
  - split; [reflexivity|]. intros c. rewrite stripNewlines_cons, filter_cons, filter_nil.
    destruct (N.eqb_spec c 13) as [->|H13]; [by rewrite decide_False by (intros []; done)|].
    destruct (N.eqb_spec c 10) as [->|H10]; [by rewrite decide_False by (intros []; done)|].
    by rewrite decide_True.
  - split; [apply IHc|]. intros c.
    rewrite (stripNewlines_cons c), (filter_cons _ c).
    destruct (N.eqb_spec c 13) as [->|H13].
    + rewrite decide_False by (intros []; done).
      destruct (N.eqb_spec d 10) as [->|Hd].
      * rewrite filter_cons, decide_False by (intros []; done). exact IHr.
      * apply IHc.
    + destruct (N.eqb_spec c 10) as [->|H10].
      * rewrite decide_False by (intros []; done). apply IHc.
      * rewrite decide_True by done. f_equal. apply IHc.
Qed.



Lemma textEncode_cons c r :
  textEncode (c :: r)
  = if isHighSurrogate c then
      match r with
      | d :: r' =>
          if isLowSurrogate d
          then utf8Bytes (65536 + (c - 55296) * 1024 + (d - 56320))%N ++ textEncode r'
          else REPLACEMENT ++ textEncode r
      | [] => REPLACEMENT
      end
    else if isLowSurrogate c then REPLACEMENT ++ textEncode r
    else utf8Bytes c ++ textEncode r.
Proof. reflexivity. Qed.








(** ** Failure responses of the gate and of the route handlers *)

Lemma failPng_headers msg status :
  headers (failPng msg status) !! CONTENT_TYPE = Some (js "image/png")
  /\ headers (failPng msg status) !! ERROR_HEADER = Some (sanitizeErrorHeader msg)
  /\ statusCode (failPng msg status) = status.
Proof. repeat split. Qed.

Lemma failSvg_headers msg status :
  headers (failSvg msg status) !! CONTENT_TYPE = Some (js "image/svg+xml")
  /\ headers (failSvg msg status) !! ERROR_HEADER = Some (sanitizeErrorHeader msg)
  /\ statusCode (failSvg msg status) = status.
Proof. repeat split. Qed.

Lemma gate_responses apiKeys req now requestCounts r :
  fst (authAndRateLimit apiKeys req now requestCounts) = Respond r ->
  r = UNAUTHORIZED \/ r = TOO_MANY_REQUESTS.
Proof.
  unfold authAndRateLimit.
  destruct (resolveKey req) as [k| | |]; cbn [fst]; try (intros [= <-]; by left).
  destruct (apiKeys !! k); cbn [fst]; [|intros [= <-]; by left].
  destruct (checkWindows _ _ _) as [[] ?]; cbn [fst]; [discriminate|].
  intros [= <-]. by right.
Qed.

(** The two messages of the gate are header values that [res.writeHead]
    accepts: its denials are always written. *)
Lemma gate_responses_are_written :
  writeFailure UNAUTHORIZED = Responded UNAUTHORIZED
  /\ writeFailure TOO_MANY_REQUESTS = Responded TOO_MANY_REQUESTS.
Proof. split; reflexivity. Qed.

Section HandlerProperties.

Variable isDev : bool.
Variable toLowerCase : jsstring -> jsstring.
Variable renderChartJs : renderJob -> result (list N).
Variable renderQr : jsstring -> option jsval -> option jsval -> qrOptions -> result (list N).
Variable renderGraphviz : option jsval -> graphvizOpts -> result (list N).
Variable getPdfBufferFromPng : list N -> result (list N).
Variable getPdfBufferWithText : jsval -> result (list N).
Variable toChartJs : gmap jsstring jsval -> result converted.
Variable parseSize : option jsval -> result (option jsval * option jsval).
Variable javascriptStringify : option jsval -> jsstring.
Variable decodeBase64 : option jsval -> result jsstring.

Local Abbreviation toPng := (renderChartToPng isDev renderChartJs decodeBase64).
Local Abbreviation toSvg := (renderChartToSvg isDev renderChartJs decodeBase64).
Local Abbreviation toPdf :=
  (renderChartToPdf isDev renderChartJs getPdfBufferFromPng getPdfBufferWithText
     decodeBase64).
Local Abbreviation legacy :=
  (handleGChart isDev renderChartJs renderQr renderGraphviz toChartJs parseSize
     javascriptStringify).
Local Abbreviation chart :=
  (getChart isDev toLowerCase renderChartJs renderQr renderGraphviz
     getPdfBufferFromPng getPdfBufferWithText toChartJs parseSize
     javascriptStringify decodeBase64).

Lemma writeFailure_accepted r :
  headerAccepted (default [] (headers r !! ERROR_HEADER)) = true ->
  writeFailure r = Responded r.
Proof. unfold writeFailure. by intros ->. Qed.

Lemma writeFailure_responded r r' :
  writeFailure r = Responded r' ->
  r' = r /\ headerAccepted (default [] (headers r !! ERROR_HEADER)) = true.
Proof.
  unfold writeFailure. destruct (headerAccepted _); [|discriminate].
  by intros [= <-].
Qed.

Lemma inPromise_responded o r : inPromise o = Responded r -> o = Responded r.
Proof. by destruct o. Qed.




Lemma failPdf_responded msg r :
  failPdf getPdfBufferWithText msg = Responded r ->
  exists buf, getPdfBufferWithText msg = Resolved buf /\ r = pdfFailure msg buf.
Proof.
  unfold failPdf. destruct (getPdfBufferWithText msg) as [buf|err]; [|discriminate].
  intros Hr%inPromise_responded%writeFailure_responded. exists buf. by destruct Hr.
Qed.

(** [doChartjsRender] step by step: the chart, its decoding, the render,
    the delivery. *)
Lemma doChartjsRender_steps opts failFn onRenderHandler :
  doChartjsRender renderChartJs decodeBase64 opts failFn onRenderHandler
  = if negb (truthy (optChart opts)) then failFn MISSING_CHART
    else match chartInput decodeBase64 opts with
         | Rejected err => failFn err
         | Resolved input =>
             match renderChartJs (chartJob opts input) with
             | Resolved buf =>
                 match onRenderHandler buf with
                 | Resolved r => Responded r
                 | Rejected err => inPromise (failFn err)
                 end
             | Rejected err => inPromise (failFn err)
             end
         end.
Proof. reflexivity. Qed.


(** What [doChartjsRender] can answer: the rendered buffer through
    [onRenderHandler], or what [failFn] answers to the message of the
    failure at hand. *)
Lemma doChartjsRender_cases opts failFn onRenderHandler :
  (exists buf r, onRenderHandler buf = Resolved r
                 /\ doChartjsRender renderChartJs decodeBase64 opts failFn onRenderHandler
                    = Responded r)
  \/ (exists msg,
        chartFailure renderChartJs decodeBase64 onRenderHandler opts msg
        /\ (doChartjsRender renderChartJs decodeBase64 opts failFn onRenderHandler
            = failFn msg
            \/ doChartjsRender renderChartJs decodeBase64 opts failFn onRenderHandler
               = inPromise (failFn msg))).
Proof.
  rewrite doChartjsRender_steps.
  destruct (truthy (optChart opts)) eqn:Hc; cbn [negb];
    [|right; exists MISSING_CHART; split; [by constructor|by left]].
  destruct (chartInput decodeBase64 opts) as [input|err] eqn:Hin;
    [|right; exists err; split; [by apply MalformedChart|by left]].
  destruct (renderChartJs (chartJob opts input)) as [buf|err] eqn:Hr;
    [|right; exists err; split; [by apply (RenderRejected _ _ _ _ input)|by right]].
  destruct (onRenderHandler buf) as [r|err] eqn:Hh; [left; eauto|].
  right. exists err. split; [by apply (DeliveryRejected _ _ _ _ input buf)|by right].
Qed.

(** A response of [doChartjsRender] that is not the delivery of
    [onRenderHandler] is the one [failFn] writes for the failure at hand. *)
Lemma doChartjsRender_responded opts failFn onRenderHandler r :
  doChartjsRender renderChartJs decodeBase64 opts failFn onRenderHandler = Responded r ->
  (exists buf, onRenderHandler buf = Resolved r)
  \/ (exists msg,
        chartFailure renderChartJs decodeBase64 onRenderHandler opts msg
        /\ failFn msg = Responded r).
Proof.
  intros Hr.
  destruct (doChartjsRender_cases opts failFn onRenderHandler)
    as [(buf & r0 & Hh & Heq)|(msg & Hfail & [Heq|Heq])]; rewrite Heq in Hr.
  - injection Hr as <-. left. eauto.
  - right. eauto.
  - right. exists msg. split; [exact Hfail|]. by apply inPromise_responded.
Qed.

Lemma failPdf_headers msg r :
  failPdf getPdfBufferWithText msg = Responded r ->
  headers r !! CONTENT_TYPE = Some (js "application/pdf")
  /\ headers r !! ERROR_HEADER = Some (sanitizeErrorHeader msg)
  /\ statusCode r = 500.
Proof. intros (buf & _ & ->)%failPdf_responded. repeat split. Qed.





(** C8 fails on the code.  On the legacy route, a request without [cht] (or
    with a [cht] that is not a string) makes [handleGChart] throw; so does a
    QR request ([cht=qr]) without [chs]; and when the legacy chart render is
    rejected no response is written at all, as that promise has no
    [catch].  The gate lets such a request through (here: the anonymous
    credential, unlimited). *)
Theorem legacy_chart_failures_escape (now : Z) (err : jsval) (conv : converted) :
  legacy {| authorization := None; query := ∅ |} = Threw TYPE_ERROR
  /\ legacy {| authorization := None; query := {[ js "cht" := VObj (js "bvg,bvs") ]} |}
     = Threw TYPE_ERROR
  /\ legacy {| authorization := None; query := {[ js "cht" := VStr (js "qr") ]} |}
     = Threw TYPE_ERROR
  /\ handleGChart isDev (fun _ => Rejected err) renderQr renderGraphviz
       (fun _ => Resolved conv) parseSize javascriptStringify
       {| authorization := None; query := {[ js "cht" := VStr (js "bvg") ]} |}
     = Unanswered err
  /\ fst (protected legacy (<[ANONYMOUS := parseLimits None]> ∅)
            {| authorization := None; query := ∅ |} now ∅)
     = Threw TYPE_ERROR.
Proof. repeat split; reflexivity. Qed.

End HandlerProperties.

(** ** The failure responses on concrete requests *)



(** The QR route answers a failed SVG request with the PNG error image too:
    a missing [text] and a rejected render both go to [failPng], although
    the success path honours [format=svg]. *)
Lemma qr_failures_are_png :
  demoGetQr {| authorization := None; query := {[ js "format" := VStr (js "svg") ]} |}
  = Responded (failPng MISSING_TEXT 500)
  /\ demoGetQr {| authorization := None;
                 query := <[js "text" := VStr (js "hello")]>
                            {[ js "format" := VStr (js "svg") ]} |}
     = Responded (failPng (VObj (js "Error: code length overflow")) 500)
  /\ getQr false 150 (fun _ _ _ _ => Resolved [])
       {| authorization := None;
          query := <[js "text" := VStr (js "hello")]>
                     {[ js "format" := VStr (js "svg") ]} |}
     = Responded (writeBuffer false (js "image/svg+xml") []).
Proof. repeat split; reflexivity. Qed.

(** * Further properties *)

(** ** The object store and the map model *)

Lemma getCounter_own own key counts p :
  own !! key = Some counts ->
  getCounter {| prototypeCounts := ∅; ownCounts := own |} (OwnObject key) p
  = counts !! p.
Proof.
  intros Hk. cbn [getCounter ownCounts prototypeCounts]. rewrite Hk.
  change (default ∅ (Some counts)) with counts.
  destruct (counts !! p); [reflexivity|apply lookup_empty].
Qed.

Lemma setCounter_own own key counts p v :
  own !! key = Some counts ->
  setCounter {| prototypeCounts := ∅; ownCounts := own |} (OwnObject key) p v
  = {| prototypeCounts := ∅; ownCounts := <[key := <[p := v]> counts]> own |}.
Proof. intros Hk. cbn [setCounter ownCounts prototypeCounts]. by rewrite Hk. Qed.

(** While the prototype holds no counter, a check on the object kept for a
    credential is the check on its map of counters. *)
Lemma checkOnObject_own limit unit timestamp own key counts :
  own !! key = Some counts ->
  checkOnObject limit unit timestamp (OwnObject key)
    {| prototypeCounts := ∅; ownCounts := own |}
  = (fst (check limit unit timestamp counts),
     {| prototypeCounts := ∅;
        ownCounts := <[key := snd (check limit unit timestamp counts)]> own |}).
Proof.
  intros Hk. unfold checkOnObject, check.
  destruct limit as [l|]; [|cbn [fst snd]; by rewrite insert_id].
  destruct (l =? 0); [cbn [fst snd]; by rewrite insert_id|].
  rewrite !(getCounter_own own key counts) by assumption.
  destruct (strictNotEqual (counts !! tsKey unit) timestamp); cbn [fst snd].
  - rewrite (setCounter_own own key counts) by assumption.
    rewrite (setCounter_own _ key (<[tsKey unit := JInt timestamp]> counts))
      by apply lookup_insert_eq.
    rewrite insert_insert_eq.
    by rewrite (getCounter_own _ key _ _ (lookup_insert_eq _ _ _)).
  - rewrite (setCounter_own own key counts) by assumption.
    by rewrite (getCounter_own _ key _ _ (lookup_insert_eq _ _ _)).
Qed.

Lemma checkWindowsOnObject_own limits now own key counts :
  own !! key = Some counts ->
  checkWindowsOnObject limits now (OwnObject key)
    {| prototypeCounts := ∅; ownCounts := own |}
  = (fst (checkWindows limits now counts),
     {| prototypeCounts := ∅;
        ownCounts := <[key := snd (checkWindows limits now counts)]> own |}).
Proof.
  intros Hk. unfold checkWindowsOnObject, checkWindows. cbn zeta.
  rewrite (checkOnObject_own _ _ _ own key counts Hk).
  destruct (check (limits !! js "rps") _ _ counts) as [[] c1]; cbn [fst snd negb];
    [|reflexivity].
  rewrite (checkOnObject_own _ _ _ _ key c1 (lookup_insert_eq _ _ _)), insert_insert_eq.
  destruct (check (limits !! js "rpm") _ _ c1) as [[] c2]; cbn [fst snd negb];
    [|reflexivity].
  rewrite (checkOnObject_own _ _ _ _ key c2 (lookup_insert_eq _ _ _)), insert_insert_eq.
  destruct (check (limits !! js "rph") _ _ c2) as [[] c3]; cbn [fst snd negb];
    [|reflexivity].
  rewrite (checkOnObject_own _ _ _ _ key c3 (lookup_insert_eq _ _ _)), insert_insert_eq.
  by destruct (check (limits !! js "rpd") _ _ c3) as [[] c4].
Qed.

(** While no credential is named [__proto__] and the prototype holds no
    counter, the middleware on the object store is the middleware on the
    map of own counters, and it leaves the prototype as it is. *)
Lemma gate_on_objects apiKeys req now st :
  prototypeUntouched apiKeys st ->
  authAndRateLimitOnObjects apiKeys req now st
  = (fst (authAndRateLimit apiKeys req now (ownCounts st)),
     {| prototypeCounts := ∅;
        ownCounts := snd (authAndRateLimit apiKeys req now (ownCounts st)) |}).
Proof.
  destruct st as [proto own]. intros [Hreg Hproto]. cbn in Hproto. subst proto.
  cbn [ownCounts]. unfold authAndRateLimitOnObjects, authAndRateLimit.
  destruct (resolveKey req) as [key| | |]; try reflexivity.
  destruct (apiKeys !! key) as [limits|] eqn:Hkey; [|reflexivity].
  assert (key ≠ PROTO) as Hne by congruence.
  unfold countsRefOf. rewrite bool_decide_eq_false_2 by assumption.
  cbn [ownCounts prototypeCounts].
  destruct (own !! key) as [counts|] eqn:Hown.
  - change (default ∅ (Some counts)) with counts.
    rewrite (checkWindowsOnObject_own limits now own key counts Hown).
    by destruct (checkWindows limits now counts) as [ok counts'].
  - change (default ∅ None) with (∅ : gmap jsstring jsnum).
    rewrite lookup_empty. cbn [isTruthyNumber].
    rewrite (checkWindowsOnObject_own limits now _ key ∅ (lookup_insert_eq _ _ _)).
    rewrite insert_insert_eq.
    by destruct (checkWindows limits now ∅) as [ok counts'].
Qed.

Lemma serve_on_objects apiKeys events : forall st,
  prototypeUntouched apiKeys st ->
  serveOnObjects apiKeys events st
  = (fst (serve apiKeys events (ownCounts st)),
     {| prototypeCounts := ∅; ownCounts := snd (serve apiKeys events (ownCounts st)) |}).
Proof.
  induction events as [|[req now] events IH]; intros st Hst.
  - destruct st as [proto own]. destruct Hst as [_ Hproto]. cbn in Hproto.
    by subst proto.
  - cbn [serveOnObjects serve]. rewrite (gate_on_objects _ _ _ _ Hst).
    destruct (authAndRateLimit apiKeys req now (ownCounts st)) as [o s1].
    cbn [fst snd]. rewrite IH by (split; [apply Hst|reflexivity]).
    cbn [ownCounts]. by destruct (serve apiKeys events s1) as [os s2].
Qed.

(** X22. Provided no credential is named [__proto__] (and nothing has been
    written on [Object.prototype]): for a credential limited on a single
    window with bound [b >= 1], among the admission checks of that
    credential that fall in one bucket of the window (starting from a store
    that has not yet opened the bucket), the first [b] are admitted and
    every later one is answered 429 "Too Many Requests", whatever other
    credentials do in between; once a check in the bucket has been denied,
    every later check in the bucket is denied too; and from any store whose
    count for the bucket already exceeds the bound, every check in the
    bucket is denied. *)
Theorem bucket_admits_first_b_then_denies
    (apiKeys : gmap jsstring (gmap jsstring Z)) (key : jsstring) (w : window)
    (b t : Z) (events : list (request * Z)) (st : objectStore)
    (untouched : prototypeUntouched apiKeys st)
    (registered : apiKeys !! key = Some {[ limitKey w := b ]})
    (bound : 1 <= b <= MAX_SAFE_INTEGER)
    (same_bucket :
       Forall (fun e => resolveKey (fst e) = VStr key -> bucket w (snd e) = t) events)
    (fresh : fst (windowEntry (countsOf (ownCounts st) key) (unitTag w))
             ≠ Some (JInt t)) :
  let outcomes := fst (serveOnObjects apiKeys events st) in
  statusCode TOO_MANY_REQUESTS = 429
  /\ (forall i req now,
        events !! i = Some (req, now) -> resolveKey req = VStr key ->
        outcomes !! i
        = Some (if bool_decide (rank key events i <= b)
                then Next else Respond TOO_MANY_REQUESTS))
  /\ (forall i j req now req' now',
        (i <= j)%nat ->
        events !! i = Some (req, now) -> resolveKey req = VStr key ->
        events !! j = Some (req', now') -> resolveKey req' = VStr key ->
        outcomes !! i = Some (Respond TOO_MANY_REQUESTS) ->
        outcomes !! j = Some (Respond TOO_MANY_REQUESTS))
  /\ (forall st' c i req now,
        prototypeUntouched apiKeys st' ->
        windowEntry (countsOf (ownCounts st') key) (unitTag w)
        = (Some (JInt t), Some (JInt c)) ->
        b < c ->
        events !! i = Some (req, now) -> resolveKey req = VStr key ->
        fst (serveOnObjects apiKeys events st') !! i
        = Some (Respond TOO_MANY_REQUESTS)).
Proof.
  cbn zeta. rewrite (serve_on_objects _ _ _ untouched). cbn [fst].
  destruct (serve_first_b_then_denies apiKeys key w b t events (ownCounts st)
              registered bound same_bucket fresh) as (H1 & H2 & H3 & H4).
  split; [exact H1|]. split; [exact H2|]. split; [exact H3|].
  intros st' c i req now Hst'. rewrite (serve_on_objects _ _ _ Hst'). cbn [fst].
  apply H4.
Qed.

Lemma bucket_admits_first_b_then_denies_witness :
  fst (serveOnObjects example_registry
         [(bearer "K", 61000); (bearer "K", 75000); (bearer "K", 119999)]
         emptyObjects) !! 2%nat
  = Some (Respond TOO_MANY_REQUESTS).
Proof.
  refine (proj1 (proj2 (bucket_admits_first_b_then_denies
            example_registry (js "K") Minute 2 1
            [(bearer "K", 61000); (bearer "K", 75000); (bearer "K", 119999)]
            emptyObjects _ _ _ _ _)) 2%nat (bearer "K") 119999 _ _).
  - split; reflexivity.
  - reflexivity.
  - unfold MAX_SAFE_INTEGER. lia.
  - repeat constructor.
  - discriminate.
  - reflexivity.
  - reflexivity.
Defined.

(** ** The registry *)

Lemma fold_loadKey_other env vars : forall apiKeys key,
  (forall var, var ∈ vars -> is_Some (authMatch (fst var)) -> snd var ≠ key) ->
  fold_left (loadKey env) vars apiKeys !! key = apiKeys !! key.
Proof.
  induction vars as [|var vars IH]; intros apiKeys key Hfree; [reflexivity|].
  cbn [fold_left]. rewrite IH by (intros v Hv; apply Hfree; by right).
  unfold loadKey. destruct (authMatch (fst var)) eqn:Hm; [|reflexivity].
  apply lookup_insert_ne. apply Hfree; [by left|by rewrite Hm].
Qed.

Lemma fold_loadKey_dom env vars : forall apiKeys key,
  is_Some (fold_left (loadKey env) vars apiKeys !! key) ->
  is_Some (apiKeys !! key)
  \/ exists var, var ∈ vars /\ is_Some (authMatch (fst var)) /\ snd var = key.
Proof.
  induction vars as [|var vars IH]; intros apiKeys key Hin; [by left|].
  cbn [fold_left] in Hin. destruct (IH _ _ Hin) as [Hk|(v & Hv & Hm & Hkey)].
  - unfold loadKey in Hk. destruct (authMatch (fst var)) eqn:Hm; [|by left].
    destruct (decide (snd var = key)) as [Heq|Hne].
    + right. exists var. split; [by left|]. by rewrite Hm.
    + rewrite lookup_insert_ne in Hk by assumption. by left.
  - right. exists v. split; [by right|done].
Qed.

Lemma fold_loadKey_keeps env vars : forall apiKeys key,
  is_Some (apiKeys !! key) -> is_Some (fold_left (loadKey env) vars apiKeys !! key).
Proof.
  induction vars as [|var vars IH]; intros apiKeys key Hk; [exact Hk|].
  cbn [fold_left]. apply IH. unfold loadKey.
  destruct (authMatch (fst var)); [|exact Hk].
  destruct (decide (snd var = key)) as [->|Hne];
    [by rewrite lookup_insert_eq|by rewrite lookup_insert_ne].
Qed.

Lemma fold_loadKey_has env vars : forall apiKeys var,
  var ∈ vars -> is_Some (authMatch (fst var)) ->
  is_Some (fold_left (loadKey env) vars apiKeys !! snd var).
Proof.
  induction vars as [|v vars IH]; intros apiKeys var Hvar Hm;
    [by apply elem_of_nil in Hvar|].
  cbn [fold_left]. apply elem_of_cons in Hvar as [<-|Hvar]; [|by apply IH].
  apply fold_loadKey_keeps. unfold loadKey. destruct Hm as [idx ->].
  by rewrite lookup_insert_eq.
Qed.

Lemma loadKeys_anonymous env :
  loadKeys env !! ANONYMOUS = Some (parseLimits (envGet env (js "limita"))).
Proof. unfold loadKeys. apply lookup_insert_eq. Qed.

(** X1. The registry built at start-up holds exactly the anonymous sentinel
    and the values of the variables named authn plus one to four digits; the
    anonymous entry carries the parse of [limita]. *)
Theorem loadKeys_domain (env : list (jsstring * jsstring)) (key : jsstring) :
  loadKeys env !! ANONYMOUS = Some (parseLimits (envGet env (js "limita")))
  /\ (is_Some (loadKeys env !! key) <->
      key = ANONYMOUS
      \/ exists var, var ∈ env /\ is_Some (authMatch (fst var)) /\ snd var = key).
Proof.
  split; [apply loadKeys_anonymous|]. unfold loadKeys. split.
  - intros Hin. destruct (decide (key = ANONYMOUS)) as [|Hne]; [by left|right].
    rewrite lookup_insert_ne in Hin by congruence.
    destruct (fold_loadKey_dom _ _ _ _ Hin) as [Hempty|Hvar]; [|exact Hvar].
    rewrite lookup_empty in Hempty. by destruct Hempty.
  - intros [->|(var & Hvar & Hm & <-)]; [by rewrite lookup_insert_eq|].
    destruct (decide (snd var = ANONYMOUS)) as [->|Hne];
      [by rewrite lookup_insert_eq|].
    rewrite lookup_insert_ne by congruence.
    by apply fold_loadKey_has.
Qed.

Lemma loadKeys_domain_witness :
  is_Some (loadKeys example_env !! js "user-b-key")
  /\ ~ is_Some (loadKeys example_env !! js "ignored-key").
Proof.
  split.
  - apply (proj2 (loadKeys_domain example_env (js "user-b-key"))). right.
    exists (js "authn01", js "user-b-key"). split; [|split; [by eexists|reflexivity]].
    unfold example_env. do 3 right. left.
  - intros Hin.
    apply (proj1 (proj2 (loadKeys_domain example_env (js "ignored-key")))) in Hin.
    destruct Hin as [Heq|(var & Hvar & Hm & Hkey)]; [discriminate|].
    unfold example_env in Hvar.
    repeat (apply elem_of_cons in Hvar as [->|Hvar];
            [first [discriminate Hkey | by destruct Hm]|]).
    by apply elem_of_nil in Hvar.
Defined.

(** X2. A key is registered with the parse of the limit variable that bears
    the same index text as its authn variable (the empty spec when there is
    none), provided the key is not the anonymous sentinel and no later authn
    variable has the same value. *)
Theorem loadKeys_pairs_limit_by_index
    (before after : list (jsstring * jsstring)) (name apiKey keyIndex : jsstring)
    (matched : authMatch name = Some keyIndex)
    (not_anonymous : apiKey ≠ ANONYMOUS)
    (last_of_its_value :
       forall var, var ∈ after -> is_Some (authMatch (fst var)) -> snd var ≠ apiKey) :
  let env := before ++ (name, apiKey) :: after in
  loadKeys env !! apiKey = Some (parseLimits (envGet env (js "limit" ++ keyIndex))).
Proof.
  cbn zeta. unfold loadKeys. rewrite lookup_insert_ne by congruence.
  rewrite fold_left_app. cbn [fold_left].
  rewrite fold_loadKey_other by assumption.
  unfold loadKey at 1. cbn [fst snd]. rewrite matched. apply lookup_insert_eq.
Qed.

Lemma loadKeys_pairs_limit_by_index_witness :
  loadKeys example_env !! js "user-b-key" = Some ∅
  /\ loadKeys example_env !! js "user-a-key"
     = Some (<[js "rpm" := 60]> (<[js "rpd" := 1000]> ∅)).
Proof.
  split.
  - refine (loadKeys_pairs_limit_by_index
              [(js "PORT", js "3400"); (js "authn0", js "user-a-key");
               (js "limit0", js "rpm:60,rpd:1000")]
              [(js "limit1", js "1"); (js "authn12345", js "ignored-key");
               (js "limita", js "rph:100")]
              (js "authn01") (js "user-b-key") (js "01") eq_refl _ _).
    + discriminate.
    + intros var Hvar Hm.
      repeat (apply elem_of_cons in Hvar as [->|Hvar]; [by destruct Hm|]).
      by apply elem_of_nil in Hvar.
  - refine (loadKeys_pairs_limit_by_index
              [(js "PORT", js "3400")]
              [(js "limit0", js "rpm:60,rpd:1000"); (js "authn01", js "user-b-key");
               (js "limit1", js "1"); (js "authn12345", js "ignored-key");
               (js "limita", js "rph:100")]
              (js "authn0") (js "user-a-key") (js "0") eq_refl _ _).
    + discriminate.
    + intros var Hvar Hm.
      repeat (apply elem_of_cons in Hvar as [->|Hvar];
              [first [by destruct Hm | discriminate]|]).
      by apply elem_of_nil in Hvar.
Defined.

(** ** More on the gate *)

Lemma UNAUTHORIZED_ne_TOO_MANY : UNAUTHORIZED ≠ TOO_MANY_REQUESTS.
Proof. intros E. apply (f_equal statusCode) in E. discriminate. Qed.

(** X3. With the registry built at start-up, a request that carries no
    credential is never answered 401: it is admitted or rate limited; and it
    is always admitted when [limita] is not set. *)
Theorem anonymous_is_never_unauthorized
    (env : list (jsstring * jsstring)) (req : request) (now : Z)
    (requestCounts : gmap jsstring (gmap jsstring jsnum))
    (no_header : authorization req = None)
    (no_key : query req !! js "key" = None) :
  let outcome := fst (authAndRateLimit (loadKeys env) req now requestCounts) in
  (outcome = Next \/ outcome = Respond TOO_MANY_REQUESTS)
  /\ outcome ≠ Respond UNAUTHORIZED
  /\ (envGet env (js "limita") = None -> outcome = Next).
Proof.
  cbn zeta.
  assert (resolveKey req = VStr ANONYMOUS) as Hk
    by (unfold resolveKey; by rewrite no_header, no_key).
  pose proof (loadKeys_anonymous env) as Hanon.
  rewrite (gate_known _ _ _ _ _ _ Hk Hanon). cbn [fst].
  split; [|split].
  - destruct (forallb _ WINDOWS); auto.
  - destruct (forallb _ WINDOWS); [discriminate|].
    intros E. apply UNAUTHORIZED_ne_TOO_MANY. congruence.
  - intros ->. reflexivity.
Qed.

Lemma anonymous_is_never_unauthorized_witness :
  fst (authAndRateLimit (loadKeys [(js "authn0", js "user-a-key")])
         {| authorization := None; query := ∅ |} 1700000000000 ∅) = Next.
Proof.
  refine (proj2 (proj2 (anonymous_is_never_unauthorized
            [(js "authn0", js "user-a-key")]
            {| authorization := None; query := ∅ |} 1700000000000 ∅ _ _)) _);
    reflexivity.
Defined.

(** The verdict for a credential and its counters afterwards depend on the
    store only through the counters of that credential. *)
Lemma gate_agrees apiKeys req now requestCounts requestCounts' key :
  resolveKey req = VStr key ->
  countsOf requestCounts key = countsOf requestCounts' key ->
  fst (authAndRateLimit apiKeys req now requestCounts)
  = fst (authAndRateLimit apiKeys req now requestCounts')
  /\ countsOf (snd (authAndRateLimit apiKeys req now requestCounts)) key
     = countsOf (snd (authAndRateLimit apiKeys req now requestCounts')) key.
Proof.
  intros Hk Hc. destruct (apiKeys !! key) as [limits|] eqn:Hreg.
  - rewrite !(gate_known _ _ _ _ _ _ Hk Hreg). cbn [fst snd].
    by rewrite !countsOf_insert, Hc.
  - unfold authAndRateLimit. by rewrite Hk, Hreg.
Qed.

Lemma credentials_do_not_interfere_from apiKeys key events :
  forall requestCounts requestCounts',
    countsOf requestCounts key = countsOf requestCounts' key ->
    outcomesFor key events (fst (serve apiKeys events requestCounts))
    = fst (serve apiKeys
             (filter (fun e => resolveKey (fst e) = VStr key) events) requestCounts').
Proof.
  induction events as [|[req now] events IH]; intros s s' Hc; [reflexivity|].
  cbn [serve]. rewrite filter_cons. cbn [fst].
  destruct (authAndRateLimit apiKeys req now s) as [o s1] eqn:Hstep.
  destruct (serve apiKeys events s1) as [os s2] eqn:Hrest.
  cbn [fst outcomesFor].
  replace os with (fst (serve apiKeys events s1)) by (by rewrite Hrest).
  destruct (decide (resolveKey req = VStr key)) as [Hk|Hk].
  - rewrite bool_decide_eq_true_2 by assumption. cbn [serve].
    destruct (gate_agrees apiKeys req now s s' key Hk Hc) as [Ho Hs].
    rewrite Hstep in Ho, Hs. cbn [fst snd] in Ho, Hs.
    destruct (authAndRateLimit apiKeys req now s') as [o' s1'].
    cbn [fst snd] in Ho, Hs. subst o'.
    rewrite (IH s1 s1' Hs).
    by destruct (serve apiKeys _ s1').
  - rewrite bool_decide_eq_false_2 by assumption.
    apply IH. rewrite <- Hc.
    pose proof (gate_other_credential apiKeys req now s key Hk) as Hsame.
    by rewrite Hstep in Hsame.
Qed.

(** X4. Provided no credential is named [__proto__] (and nothing has been
    written on [Object.prototype]), the requests of other credentials have
    no effect on the verdicts a credential gets: in any sequence of admission
    checks, the outcomes of the checks of one credential are the outcomes of
    those checks served alone. *)
Theorem credentials_do_not_interfere
    (apiKeys : gmap jsstring (gmap jsstring Z)) (key : jsstring)
    (events : list (request * Z)) (st : objectStore)
    (untouched : prototypeUntouched apiKeys st) :
  outcomesFor key events (fst (serveOnObjects apiKeys events st))
  = fst (serveOnObjects apiKeys
           (filter (fun e => resolveKey (fst e) = VStr key) events) st).
Proof.
  rewrite !(serve_on_objects _ _ _ untouched). cbn [fst].
  by apply credentials_do_not_interfere_from.
Qed.

Lemma credentials_do_not_interfere_witness :
  outcomesFor (js "K")
    [(bearer "K", 1000); (bearer "user-b", 1200); (bearer "K", 1500)]
    (fst (serveOnObjects example_registry
            [(bearer "K", 1000); (bearer "user-b", 1200); (bearer "K", 1500)]
            emptyObjects))
  = fst (serveOnObjects example_registry
           [(bearer "K", 1000); (bearer "K", 1500)] emptyObjects).
Proof.
  refine (credentials_do_not_interfere example_registry (js "K")
            [(bearer "K", 1000); (bearer "user-b", 1200); (bearer "K", 1500)]
            emptyObjects _).
  split; reflexivity.
Defined.

Lemma gate_store apiKeys req now requestCounts :
  snd (authAndRateLimit apiKeys req now requestCounts) = requestCounts
  \/ exists key counts,
       is_Some (apiKeys !! key)
       /\ snd (authAndRateLimit apiKeys req now requestCounts)
          = <[key := counts]> requestCounts.
Proof.
  unfold authAndRateLimit. destruct (resolveKey req) as [k| | |]; try by left.
  destruct (apiKeys !! k) as [limits|] eqn:Hreg; [|by left].
  destruct (checkWindows _ _ _) as [ok counts']. right. by exists k, counts'.
Qed.

Lemma serve_store_keys apiKeys events : forall requestCounts,
  dom requestCounts ⊆ dom apiKeys ->
  dom (snd (serve apiKeys events requestCounts)) ⊆ dom apiKeys.
Proof.
  induction events as [|[req now] events IH]; intros s Hs; [exact Hs|].
  cbn [serve].
  destruct (authAndRateLimit apiKeys req now s) as [o s1] eqn:Hstep.
  destruct (serve apiKeys events s1) as [os s2] eqn:Hrest. cbn [snd].
  replace s2 with (snd (serve apiKeys events s1)) by (by rewrite Hrest).
  apply IH.
  destruct (gate_store apiKeys req now s) as [Hsame|(k & counts & Hk & Hins)];
    rewrite Hstep in *; cbn [snd] in *; subst s1; [exact Hs|].
  rewrite dom_insert_L. apply union_least; [|exact Hs].
  apply singleton_subseteq_l. by apply elem_of_dom.
Qed.

(** X5. The store never grows beyond the registry: started empty, after any
    sequence of admission checks it holds counters only for registered
    credentials, so at most as many entries as the registry has keys;
    requests with unknown credentials leave no trace. *)
Theorem store_holds_registered_credentials_only
    (apiKeys : gmap jsstring (gmap jsstring Z)) (events : list (request * Z)) :
  dom (snd (serve apiKeys events ∅)) ⊆ dom apiKeys
  /\ (size (snd (serve apiKeys events ∅)) <= size apiKeys)%nat.
Proof.
  assert (dom (snd (serve apiKeys events ∅)) ⊆ dom apiKeys) as Hsub
    by (apply serve_store_keys; rewrite dom_empty_L; apply empty_subseteq).
  split; [exact Hsub|].
  rewrite <- !size_dom. by apply subseteq_size.
Qed.

(** ** Well-formed counters *)

Lemma bump_wellFormed t entry :
  wellFormedEntry entry ->
  exists c, bump t entry = (Some (JInt t), Some (JInt c)) /\ 1 <= c.
Proof.
  unfold bump. destruct entry as [[[|z]|] [[|c]|]]; cbn; try done.
  - intros Hc. destruct (Z.eqb_spec z t) as [->|Hne]; cbn [negb].
    + exists (c + 1). split; [reflexivity|lia].
    + exists 1. split; [reflexivity|lia].
  - intros _. exists 1. split; [reflexivity|lia].
Qed.

Lemma check_wellFormed limit unit timestamp counts :
  (forall u, wellFormedEntry (windowEntry counts u)) ->
  forall u, wellFormedEntry (windowEntry (snd (check limit unit timestamp counts)) u).
Proof.
  intros Hwf u. destruct (decide (u = unit)) as [->|Hne].
  - rewrite check_entry_same. destruct limit as [b|]; [|apply Hwf].
    destruct (b =? 0); [apply Hwf|].
    destruct (bump_wellFormed timestamp _ (Hwf unit)) as (c & -> & Hc). exact Hc.
  - rewrite check_entry_other by assumption. apply Hwf.
Qed.

Lemma checkList_wellFormed ws limits now : forall counts,
  (forall u, wellFormedEntry (windowEntry counts u)) ->
  forall u, wellFormedEntry (windowEntry (snd (checkList ws limits now counts)) u).
Proof.
  induction ws as [|w ws IH]; intros counts Hwf; [exact Hwf|].
  cbn [checkList].
  pose proof (check_wellFormed (limits !! limitKey w) (unitTag w) (bucket w now)
                counts Hwf) as Hwf1.
  destruct (check (limits !! limitKey w) (unitTag w) (bucket w now) counts)
    as [ok counts1]. cbn [snd] in Hwf1.
  destruct ok; cbn [negb snd]; [by apply IH|exact Hwf1].
Qed.

Lemma gate_wellFormed apiKeys req now requestCounts :
  wellFormedStore requestCounts ->
  wellFormedStore (snd (authAndRateLimit apiKeys req now requestCounts)).
Proof.
  intros Hwf key unit. unfold authAndRateLimit.
  destruct (resolveKey req) as [k| | |]; try apply Hwf.
  destruct (apiKeys !! k) as [limits|]; [|apply Hwf].
  rewrite checkWindows_checkList. fold (countsOf requestCounts k).
  pose proof (checkList_wellFormed WINDOWS limits now (countsOf requestCounts k)
                (Hwf k)) as Hnew.
  destruct (checkList WINDOWS limits now (countsOf requestCounts k))
    as [ok counts']. cbn [snd] in *.
  destruct (decide (key = k)) as [->|Hne].
  - rewrite countsOf_insert. apply Hnew.
  - unfold countsOf. rewrite lookup_insert_ne by congruence. apply Hwf.
Qed.

Lemma wellFormedStore_empty : wellFormedStore ∅.
Proof.
  intros key unit. unfold countsOf. rewrite lookup_empty. unfold windowEntry.
  cbn [from_option]. by rewrite !lookup_empty.
Qed.

(** X6. The counters the gate keeps are well formed: starting from a
    well-formed store (the empty one at start-up), after any sequence of
    admission checks every stored window entry is either absent or a bucket
    id together with an integer count of at least 1; in particular no count
    is ever [NaN]. *)
Theorem counters_stay_well_formed
    (apiKeys : gmap jsstring (gmap jsstring Z)) (events : list (request * Z))
    (requestCounts : gmap jsstring (gmap jsstring jsnum))
    (well_formed : wellFormedStore requestCounts) :
  wellFormedStore ∅
  /\ wellFormedStore (snd (serve apiKeys events requestCounts))
  /\ (forall key unit,
        countsOf (snd (serve apiKeys events requestCounts)) key !! countKey unit
        ≠ Some JNaN).
Proof.
  assert (wellFormedStore (snd (serve apiKeys events requestCounts))) as Hwf.
  { revert requestCounts well_formed.
    induction events as [|[req now] events IH]; intros s Hs; [exact Hs|].
    cbn [serve].
    pose proof (gate_wellFormed apiKeys req now s Hs) as Hs1.
    destruct (authAndRateLimit apiKeys req now s) as [o s1]. cbn [snd] in Hs1.
    specialize (IH s1 Hs1). by destruct (serve apiKeys events s1). }
  split; [apply wellFormedStore_empty|split; [exact Hwf|]].
  intros key unit Hnan. specialize (Hwf key unit). unfold windowEntry in Hwf.
  rewrite Hnan in Hwf. by destruct (_ !! tsKey unit) as [[|]|].
Qed.

Lemma counters_stay_well_formed_witness :
  wellFormedStore (snd (serve two_window_registry
                          [(bearer "K", 0); (bearer "K", 1); (bearer "nobody", 2)] ∅)).
Proof.
  refine (proj1 (proj2 (counters_stay_well_formed two_window_registry
            [(bearer "K", 0); (bearer "K", 1); (bearer "nobody", 2)] ∅ _))).
  apply wellFormedStore_empty.
Defined.

(** ** Admission and the bounds *)




Lemma checkList_unlimited ws limits now counts :
  (forall w, limits !! limitKey w = None) ->
  checkList ws limits now counts = (true, counts).
Proof.
  intros Hnone. induction ws as [|w ws IH]; [reflexivity|].
  cbn [checkList]. rewrite Hnone. cbn [check negb]. exact IH.
Qed.

(** X8. A credential registered without any bound (no limit variable, or a
    limit string that gives no bound) is admitted on every check, and its
    counters are not touched. *)
Theorem unlimited_credential_is_always_admitted
    (apiKeys : gmap jsstring (gmap jsstring Z)) (req : request) (now : Z)
    (requestCounts : gmap jsstring (gmap jsstring jsnum))
    (key : jsstring) (limits : gmap jsstring Z)
    (credential : resolveKey req = VStr key)
    (registered : apiKeys !! key = Some limits)
    (unlimited : forall w, limits !! limitKey w = None) :
  authAndRateLimit apiKeys req now requestCounts
  = (Next, <[key := countsOf requestCounts key]> requestCounts)
  /\ countsOf (snd (authAndRateLimit apiKeys req now requestCounts)) key
     = countsOf requestCounts key.
Proof.
  unfold authAndRateLimit. rewrite credential, registered, checkWindows_checkList.
  fold (countsOf requestCounts key). rewrite checkList_unlimited by assumption.
  split; [reflexivity|]. cbn [snd]. apply countsOf_insert.
Qed.

Lemma unlimited_credential_is_always_admitted_witness :
  fst (authAndRateLimit (loadKeys [(js "authn7", js "free-key")]) (bearer "free-key")
         42 ∅) = Next.
Proof.
  refine (f_equal fst (proj1 (unlimited_credential_is_always_admitted
            (loadKeys [(js "authn7", js "free-key")]) (bearer "free-key") 42 ∅
            (js "free-key") ∅ _ _ _))).
  - reflexivity.
  - reflexivity.
  - intros w. apply lookup_empty.
Defined.

(** X9. A negative bound blocks like 0: a credential whose spec has a
    negative bound on some window (the parser accepts "rps:-1") is answered
    429 on every check, from any well-formed store. *)
Theorem negative_bound_blocks_every_request
    (apiKeys : gmap jsstring (gmap jsstring Z)) (req : request) (now : Z)
    (requestCounts : gmap jsstring (gmap jsstring jsnum))
    (key : jsstring) (limits : gmap jsstring Z) (w : window) (b : Z)
    (credential : resolveKey req = VStr key)
    (registered : apiKeys !! key = Some limits)
    (configured : limits !! limitKey w = Some b)
    (negative : b < 0)
    (well_formed : wellFormedStore requestCounts) :
  fst (authAndRateLimit apiKeys req now requestCounts) = Respond TOO_MANY_REQUESTS.
Proof.
  rewrite (gate_known _ _ _ _ _ _ credential registered). cbn [fst].
  rewrite (forallb_refuted _ _ w (elem_of_WINDOWS w)); [reflexivity|].
  unfold passes. rewrite check_verdict, configured.
  destruct (b =? 0); [reflexivity|].
  destruct (bump_wellFormed (bucket w now) _ (well_formed key (unitTag w)))
    as (c & -> & Hc). cbn [snd lessEq]. apply Z.leb_gt. lia.
Qed.

Lemma negative_bound_blocks_every_request_witness :
  fst (authAndRateLimit (<[js "K" := parseLimits (Some (js "rpd:-1"))]> ∅)
         (bearer "K") 0 ∅) = Respond TOO_MANY_REQUESTS.
Proof.
  refine (negative_bound_blocks_every_request
            (<[js "K" := parseLimits (Some (js "rpd:-1"))]> ∅) (bearer "K") 0 ∅
            (js "K") (parseLimits (Some (js "rpd:-1"))) Day (-1) _ _ _ _ _).
  - reflexivity.
  - reflexivity.
  - reflexivity.
  - lia.
  - apply wellFormedStore_empty.
Defined.

(** ** The two transports of a credential *)

(** X10. The gate sees a request only through its credential: a key sent as
    [Authorization: Bearer key] and the same non-empty key sent as the [key]
    query parameter (without such a header) get the same verdict and leave
    the same store, so they draw on one pool of counters; the explicit key
    "_anonymous_" is the anonymous caller. *)
Theorem header_and_query_key_are_one_credential
    (apiKeys : gmap jsstring (gmap jsstring Z)) (now : Z)
    (requestCounts : gmap jsstring (gmap jsstring jsnum))
    (key : jsstring) (byHeader byQuery anonymous : request)
    (not_empty : key ≠ [])
    (header : authorization byHeader = Some (js "Bearer " ++ key))
    (no_header : authorization byQuery = None)
    (parameter : query byQuery !! js "key" = Some (VStr key))
    (no_credential : authorization anonymous = None
                     /\ query anonymous !! js "key" = None) :
  authAndRateLimit apiKeys byHeader now requestCounts
  = authAndRateLimit apiKeys byQuery now requestCounts
  /\ (key = ANONYMOUS ->
      authAndRateLimit apiKeys byQuery now requestCounts
      = authAndRateLimit apiKeys anonymous now requestCounts).
Proof.
  assert (resolveKey byHeader = VStr key) as Hh.
  { unfold resolveKey. rewrite header, startsWith_app. by rewrite drop_app_length'. }
  assert (resolveKey byQuery = VStr key) as Hq.
  { unfold resolveKey. rewrite no_header, parameter. by destruct key. }
  assert (resolveKey anonymous = VStr ANONYMOUS) as Ha.
  { unfold resolveKey. destruct no_credential as [-> ->]. reflexivity. }
  unfold authAndRateLimit. rewrite Hh, Hq, Ha. split; [reflexivity|]. by intros ->.
Qed.

Lemma header_and_query_key_are_one_credential_witness :
  authAndRateLimit example_registry (bearer "K") 5 ∅
  = authAndRateLimit example_registry
      {| authorization := None; query := {[ js "key" := VStr (js "K") ]} |} 5 ∅.
Proof.
  refine (proj1 (header_and_query_key_are_one_credential example_registry 5 ∅ (js "K")
            (bearer "K")
            {| authorization := None; query := {[ js "key" := VStr (js "K") ]} |}
            {| authorization := None; query := ∅ |} _ _ _ _ _)).
  - discriminate.
  - reflexivity.
  - reflexivity.
  - reflexivity.
  - split; reflexivity.
Defined.

(** ** Fixed windows over time *)

Lemma bucketRank_cons key w t e events i :
  bucketRank key w t (e :: events) (S i)
  = (if bool_decide (resolveKey (fst e) = VStr key /\ bucket w (snd e) = t) then 1 else 0)
    + bucketRank key w t events i.
Proof.
  unfold bucketRank. rewrite firstn_cons, filter_cons.
  case_bool_decide as Hd; destruct (decide _); try contradiction; cbn [length]; lia.
Qed.

Lemma bucketRank_head key w t e events :
  bucketRank key w t (e :: events) 0
  = (if bool_decide (resolveKey (fst e) = VStr key /\ bucket w (snd e) = t) then 1 else 0).
Proof.
  unfold bucketRank. rewrite firstn_cons, firstn_O, filter_cons, filter_nil.
  case_bool_decide as Hd; destruct (decide _); try contradiction; reflexivity.
Qed.

Lemma timeOrdered_lower_bound key w events : forall t0 i req now,
  timeOrdered key w t0 events ->
  events !! i = Some (req, now) -> resolveKey req = VStr key ->
  t0 <= bucket w now.
Proof.
  induction events as [|[req0 now0] events IH]; intros t0 i req now Hord Hi Hk; [done|].
  cbn [timeOrdered fst snd] in Hord. destruct i as [|i].
  - change (Some (req0, now0) = Some (req, now)) in Hi. injection Hi as -> ->.
    rewrite bool_decide_eq_true_2 in Hord by assumption. tauto.
  - change (events !! i = Some (req, now)) in Hi.
    case_bool_decide.
    + destruct Hord as [Hle Hord]. pose proof (IH _ _ _ _ Hord Hi Hk). lia.
    + eapply IH; eassumption.
Qed.

Lemma countedSince_seen counts w t0 c0 t :
  0 <= c0 -> t0 <= t -> countedSince counts w t0 c0 ->
  seen counts w t (if bool_decide (t = t0) then c0 else 0).
Proof.
  intros Hc Ht Hs. unfold countedSince in Hs. unfold seen.
  destruct (decide (c0 = 0)) as [->|Hc0].
  - rewrite bool_decide_eq_true_2 in Hs by reflexivity.
    assert ((if bool_decide (t = t0) then 0 else 0) = 0) as -> by (by case_bool_decide).
    rewrite bool_decide_eq_true_2 by reflexivity. by apply Hs.
  - rewrite bool_decide_eq_false_2 in Hs by assumption.
    destruct (decide (t = t0)) as [->|Hne].
    + rewrite (bool_decide_eq_true_2 (t0 = t0)) by reflexivity.
      by rewrite bool_decide_eq_false_2.
    + rewrite (bool_decide_eq_false_2 (t = t0)) by assumption.
      rewrite bool_decide_eq_true_2 by reflexivity. rewrite Hs. cbn [fst]. congruence.
Qed.

Lemma seen_countedSince counts w t c :
  0 <= c -> seen counts w t (c + 1) -> countedSince counts w t (c + 1).
Proof.
  intros Hc. unfold seen, countedSince. by rewrite !bool_decide_eq_false_2 by lia.
Qed.

Lemma ordered_counting apiKeys key w b :
  apiKeys !! key = Some {[ limitKey w := b ]} -> 1 <= b ->
  forall events requestCounts t0 c0 i req now,
    0 <= c0 ->
    countedSince (countsOf requestCounts key) w t0 c0 ->
    timeOrdered key w t0 events ->
    events !! i = Some (req, now) ->
    resolveKey req = VStr key ->
    fst (serve apiKeys events requestCounts) !! i
    = Some (if bool_decide ((if bool_decide (bucket w now = t0) then c0 else 0)
                            + bucketRank key w (bucket w now) events i <= b)
            then Next else Respond TOO_MANY_REQUESTS).
Proof.
  intros Hreg Hb.
  induction events as [|[req0 now0] events IH];
    intros requestCounts t0 c0 i req now Hc Hs Hord Hi Hk; [done|].
  cbn [timeOrdered fst snd] in Hord. cbn [serve].
  destruct (authAndRateLimit apiKeys req0 now0 requestCounts) as [o s1] eqn:Hstep.
  destruct (serve apiKeys events s1) as [os s2] eqn:Hrest. cbn [fst].
  destruct (decide (resolveKey req0 = VStr key)) as [Hk0|Hk0].
  - rewrite bool_decide_eq_true_2 in Hord by assumption. destruct Hord as [Hle Hord].
    set (t1 := bucket w now0) in *.
    set (c1 := if bool_decide (t1 = t0) then c0 else 0).
    assert (0 <= c1) as Hc1 by (subst c1; case_bool_decide; lia).
    pose proof (countedSince_seen _ _ _ _ t1 Hc Hle Hs) as Hseen. fold c1 in Hseen.
    destruct (step_same apiKeys key w b t1 Hreg Hb req0 now0 requestCounts c1
                Hk0 eq_refl Hc1 Hseen) as [Ho Hs'].
    rewrite Hstep in Ho, Hs'. cbn [fst snd] in Ho, Hs'.
    destruct i as [|i].
    + change (Some (req0, now0) = Some (req, now)) in Hi. injection Hi as <- <-.
      change ((o :: os) !! 0%nat) with (Some o). rewrite Ho, bucketRank_head.
      cbn [fst snd]. fold t1.
      rewrite (bool_decide_eq_true_2 (_ /\ _)) by done. reflexivity.
    + change ((o :: os) !! S i) with (os !! i).
      change (events !! i = Some (req, now)) in Hi.
      replace os with (fst (serve apiKeys events s1)) by (by rewrite Hrest).
      rewrite (IH s1 t1 (c1 + 1) i req now) by
        (try assumption; try lia; by apply seen_countedSince).
      rewrite bucketRank_cons. cbn [fst snd]. fold t1.
      pose proof (timeOrdered_lower_bound _ _ _ _ _ _ _ Hord Hi Hk) as Hlow.
      f_equal. destruct (decide (bucket w now = t1)) as [Heq|Hne].
      * rewrite (bool_decide_eq_true_2 (bucket w now = t1)) by assumption.
        rewrite (bool_decide_eq_true_2 (_ /\ _)) by done.
        rewrite Heq. fold c1. by rewrite Z.add_assoc.
      * rewrite (bool_decide_eq_false_2 (bucket w now = t1)) by assumption.
        rewrite (bool_decide_eq_false_2 (_ /\ _)) by (intros [_ ?]; congruence).
        rewrite (bool_decide_eq_false_2 (bucket w now = t0)) by lia.
        reflexivity.
  - rewrite bool_decide_eq_false_2 in Hord by assumption.
    pose proof (gate_other_credential apiKeys req0 now0 requestCounts key Hk0) as Hsame.
    rewrite Hstep in Hsame. cbn [snd] in Hsame.
    destruct i as [|i].
    + change (Some (req0, now0) = Some (req, now)) in Hi. congruence.
    + change ((o :: os) !! S i) with (os !! i).
      change (events !! i = Some (req, now)) in Hi.
      replace os with (fst (serve apiKeys events s1)) by (by rewrite Hrest).
      rewrite (IH s1 t0 c0 i req now) by (try assumption; by rewrite Hsame).
      rewrite bucketRank_cons. cbn [fst].
      rewrite (bool_decide_eq_false_2 (_ /\ _)) by (intros [? _]; contradiction).
      reflexivity.
Qed.

(** X11. Fixed-window counting over time.  Provided no credential is named
    [__proto__] (and nothing has been written on [Object.prototype]): for a
    credential limited on one window with bound [b >= 1] whose checks arrive
    in time order, starting from counters that hold no bucket of the
    sequence, a check is admitted exactly when it is among the first [b]
    checks of the credential in its own bucket.  Each new bucket starts
    afresh, so [b] checks at the end of one bucket and [b] more at the start
    of the next are all admitted. *)
Theorem fixed_window_counts_each_bucket_afresh
    (apiKeys : gmap jsstring (gmap jsstring Z)) (key : jsstring) (w : window)
    (b t0 : Z) (events : list (request * Z)) (st : objectStore)
    (untouched : prototypeUntouched apiKeys st)
    (registered : apiKeys !! key = Some {[ limitKey w := b ]})
    (bound : 1 <= b <= MAX_SAFE_INTEGER)
    (in_time_order : timeOrdered key w t0 events)
    (fresh : forall t, t0 <= t ->
               fst (windowEntry (countsOf (ownCounts st) key) (unitTag w))
               ≠ Some (JInt t)) :
  forall i req now,
    events !! i = Some (req, now) -> resolveKey req = VStr key ->
    fst (serveOnObjects apiKeys events st) !! i
    = Some (if bool_decide (bucketRank key w (bucket w now) events i <= b)
            then Next else Respond TOO_MANY_REQUESTS).
Proof.
  intros i req now Hi Hk. rewrite (serve_on_objects _ _ _ untouched). cbn [fst].
  rewrite (ordered_counting apiKeys key w b registered (proj1 bound)
             events (ownCounts st) t0 0 i req now); try assumption; try lia.
  by destruct (bool_decide (bucket w now = t0)).
Qed.

Lemma fixed_window_counts_each_bucket_afresh_witness :
  fst (serveOnObjects example_registry boundary_burst emptyObjects) !! 2%nat
  = Some (Respond TOO_MANY_REQUESTS)
  /\ fst (serveOnObjects example_registry boundary_burst emptyObjects) !! 3%nat
     = Some Next.
Proof.
  assert (prototypeUntouched example_registry emptyObjects) as Hst
    by (split; reflexivity).
  assert (example_registry !! js "K" = Some {[ limitKey Minute := 2 ]}) as Hreg
    by reflexivity.
  assert (1 <= 2 <= MAX_SAFE_INTEGER) as Hb by (unfold MAX_SAFE_INTEGER; lia).
  assert (timeOrdered (js "K") Minute 0 boundary_burst) as Hord
    by (vm_compute; intuition discriminate).
  assert (forall t, 0 <= t ->
            fst (windowEntry (countsOf (ownCounts emptyObjects) (js "K"))
                   (unitTag Minute)) ≠ Some (JInt t))
    as Hfresh by (intros t _; discriminate).
  pose proof (fixed_window_counts_each_bucket_afresh example_registry (js "K") Minute
                2 0 boundary_burst emptyObjects Hst Hreg Hb Hord Hfresh) as H.
  split.
  - exact (H 2%nat (bearer "K") 119999 eq_refl eq_refl).
  - exact (H 3%nat (bearer "K") 120000 eq_refl eq_refl).
Defined.

(** ** More on the limit parser *)

Lemma numberToString_without sep n :
  isDigit sep = false -> sep ≠ 45%N -> sep ∉ numberToString n.
Proof.
  intros Hsep H45. unfold numberToString. destruct (Z.ltb_spec n 0).
  - destruct (decimalDigits_spec (digitsFuel (- n)) (- n) []) as (Hall & _).
    + unfold digitsFuel. lia.
    + split; [lia|apply digitsFuel_enough; lia].
    + constructor.
    + apply not_elem_of_cons. split; [exact H45|by apply digits_without].
  - destruct (numberToString_nonneg n) as (Hall & _); [assumption|].
    unfold numberToString in Hall. rewrite (proj2 (Z.ltb_ge n 0)) in Hall by assumption.
    by apply digits_without.
Qed.

Lemma isPlainNumber_Some s n : isPlainNumber s = Some n -> s = numberToString n.
Proof.
  unfold isPlainNumber. destruct (parseInt s) as [m|]; [|discriminate].
  case_bool_decide; [|discriminate]. intros [= <-]. done.
Qed.

(** X12. Whatever the input, the parser stores bounds under the four limit
    keys only. *)
Theorem parseLimits_keys (limitString : option jsstring) (key : jsstring) :
  is_Some (parseLimits limitString !! key) -> key ∈ LIMIT_KEYS.
Proof.
  unfold parseLimits.
  destruct limitString as [[|c s]|]; try (rewrite lookup_empty; by intros []).
  destruct (isPlainNumber (c :: s)) as [n|].
  - destruct (decide (key = js "rps")) as [->|Hne]; [intros _; by left|].
    rewrite lookup_singleton_ne by congruence. by intros [].
  - rewrite parseParts_lookup. generalize (split 44 (c :: s)). intros parts Hsome.
    destruct (decide (key ∈ LIMIT_KEYS)) as [|Hout]; [assumption|exfalso].
    assert (omap (contribution key) parts = []) as Hnone.
    { induction parts as [|p parts IH]; [reflexivity|].
      change (omap (contribution key) (p :: parts))
        with (match contribution key p with
              | Some v => v :: omap (contribution key) parts
              | None => omap (contribution key) parts
              end).
      unfold contribution at 1.
      rewrite bool_decide_eq_false_2 by (intros [_ ?]; contradiction).
      apply IH. change (omap (contribution key) (p :: parts))
        with (match contribution key p with
              | Some v => v :: omap (contribution key) parts
              | None => omap (contribution key) parts
              end) in Hsome.
      unfold contribution at 1 in Hsome.
      by rewrite bool_decide_eq_false_2 in Hsome by (intros [_ ?]; contradiction). }
    rewrite Hnone in Hsome. by destruct Hsome.
Qed.

Lemma parseLimits_keys_witness :
  js "rpm" ∈ LIMIT_KEYS.
Proof.
  apply (parseLimits_keys (Some (js "rps:1,junk:2,rpm:x,rpm:3")) (js "rpm")).
  by eexists.
Defined.

Lemma split_app sep a b :
  split sep (a ++ sep :: b) = split sep a ++ split sep b.
Proof.
  induction a as [|c r IH].
  - cbn [app split]. by rewrite N.eqb_refl.
  - cbn [app split]. destruct (c =? sep)%N; [by rewrite IH|].
    rewrite IH. pose proof (split_not_nil sep r) as Hne.
    by destruct (split sep r).
Qed.

Lemma parseParts_numeral n : parseParts (numberToString n) = ∅.
Proof.
  apply map_eq. intros key. rewrite parseParts_lookup, lookup_empty.
  rewrite split_no_sep by (apply numberToString_without; [reflexivity|discriminate]).
  cbn [omap list_omap]. unfold contribution.
  rewrite split_no_sep by (apply numberToString_without; [reflexivity|discriminate]).
  case_bool_decide as Hd; [|reflexivity]. destruct Hd as [[= <-] Hin].
  exfalso. unfold LIMIT_KEYS in Hin.
  assert (114%N ∉ numberToString n) as Hr
    by (apply numberToString_without; [reflexivity|discriminate]).
  repeat (apply elem_of_cons in Hin as [Heq|Hin];
          [rewrite Heq in Hr; apply Hr; by left|]).
  by apply elem_of_nil in Hin.
Qed.

(** X13. Joining two limit strings with a comma merges what their segments
    give, the later string winning on a unit both set.  A bare number is a
    per-second bound only as the whole string: as a segment of a comma list
    it gives nothing. *)
Theorem comma_merges_later_wins (a b : jsstring) (n : Z) :
  parseLimits (Some (a ++ 44%N :: b)) = parseParts b ∪ parseParts a
  /\ parseLimits (Some (numberToString n ++ 44%N :: b)) = parseParts b.
Proof.
  assert (forall a', parseLimits (Some (a' ++ 44%N :: b)) = parseParts b ∪ parseParts a')
    as Hmerge.
  { intros a'. rewrite parseLimits_parts.
    - apply map_eq. intros key.
      rewrite lookup_union, !parseParts_lookup, split_app, omap_app, last_app.
      destruct (last (omap (contribution key) (split 44 b)));
        destruct (last (omap (contribution key) (split 44 a'))); reflexivity.
    - by destruct a'.
    - destruct (isPlainNumber (a' ++ 44%N :: b)) as [m|] eqn:Hm; [|reflexivity].
      apply isPlainNumber_Some in Hm.
      exfalso. apply (numberToString_without 44 m); [reflexivity|discriminate|].
      rewrite <- Hm. apply elem_of_app. right. by left. }
  split; [apply Hmerge|].
  rewrite Hmerge, parseParts_numeral. apply (right_id_L ∅ (∪)).
Qed.

(** ** More on the sanitizer *)

Lemma utf8Bytes_length cp :
  (cp < 65536)%N -> (1 <= length (utf8Bytes cp) <= 3)%nat.
Proof.
  intros Hcp. unfold utf8Bytes.
  destruct (cp <? 128)%N; [cbn; lia|].
  destruct (cp <? 2048)%N; [cbn; lia|].
  rewrite (proj2 (N.ltb_lt cp 65536)) by assumption. cbn. lia.
Qed.

Lemma utf8Bytes_pair_length cp : (length (utf8Bytes cp) <= 4)%nat.
Proof.
  unfold utf8Bytes.
  destruct (cp <? 128)%N; [cbn; lia|].
  destruct (cp <? 2048)%N; [cbn; lia|].
  destruct (cp <? 65536)%N; cbn; lia.
Qed.

Lemma utf8Bytes_pair_length_min cp :
  (65536 <= cp)%N -> (length (utf8Bytes cp) = 4)%nat.
Proof.
  intros Hcp. unfold utf8Bytes.
  rewrite (proj2 (N.ltb_ge cp 128)), (proj2 (N.ltb_ge cp 2048)),
    (proj2 (N.ltb_ge cp 65536)) by lia. reflexivity.
Qed.

Lemma textEncode_length s :
  Forall (fun c => (c < 65536)%N) s ->
  (length s <= length (textEncode s) <= 3 * length s)%nat.
Proof.
  enough ((Forall (fun c => (c < 65536)%N) s ->
           (length s <= length (textEncode s) <= 3 * length s)%nat)
          /\ forall c, (c < 65536)%N -> Forall (fun c => (c < 65536)%N) s ->
                       (length (c :: s) <= length (textEncode (c :: s))
                        <= 3 * length (c :: s))%nat) by tauto.
  induction s as [|d r [IHr IHc]].
  - split; [cbn; lia|]. intros c Hc _. rewrite textEncode_cons.
    destruct (isHighSurrogate c); [cbn; lia|].
    destruct (isLowSurrogate c); rewrite ?length_app; [cbn; lia|].
    pose proof (utf8Bytes_length c Hc). cbn [length textEncode]. lia.
  - split; [intros [Hd Hr]%Forall_cons; by apply IHc|].
    intros c Hc [Hd Hr]%Forall_cons. rewrite (textEncode_cons c).
    specialize (IHr Hr). specialize (IHc d Hd Hr). cbn [length] in *.
    destruct (isHighSurrogate c) eqn:Hhigh.
    + destruct (isLowSurrogate d) eqn:Hlow; rewrite length_app.
      * rewrite utf8Bytes_pair_length_min by lia. lia.
      * cbn [REPLACEMENT length]. lia.
    + destruct (isLowSurrogate c); rewrite length_app.
      * cbn [REPLACEMENT length]. lia.
      * pose proof (utf8Bytes_length c Hc). lia.
Qed.

(** X14. The sanitized header of a string message is never longer than three
    times the message, and the encoding before the newline removal is never
    shorter than the message. *)
Theorem sanitized_header_length (s : jsstring)
    (code_units : Forall (fun c => (c < 65536)%N) s) :
  (length (sanitizeErrorHeader (VStr s)) <= 3 * length s)%nat
  /\ (length s <= length (utf8ToAscii s) <= 3 * length s)%nat.
Proof.
  pose proof (textEncode_length s code_units) as Hlen.
  assert (length (utf8ToAscii s) = length (textEncode s)) as Hmap
    by (unfold utf8ToAscii; apply length_map).
  split; [|lia]. cbn [sanitizeErrorHeader]. rewrite stripNewlines_filter.
  pose proof (length_filter keptByStrip (utf8ToAscii s)). lia.
Qed.

Lemma sanitized_header_length_witness :
  (length (sanitizeErrorHeader (VStr [8364; 13; 10; 55357; 56832]%N)) <= 15)%nat.
Proof.
  refine (proj1 (sanitized_header_length [8364; 13; 10; 55357; 56832]%N _)).
  repeat constructor.
Defined.

(** ** More on the route handlers *)

Lemma sanitizeErrorHeader_one_line msg :
  (13%N ∉ sanitizeErrorHeader msg) /\ (10%N ∉ sanitizeErrorHeader msg).
Proof.
  destruct msg as [s| | |]; cbn [sanitizeErrorHeader];
    try (split; apply not_elem_of_nil).
  rewrite stripNewlines_filter.
  split; intros [[H13 H10] _]%list_elem_of_filter; congruence.
Qed.

Lemma failPng_one_line msg status : headerOnOneLine (failPng msg status).
Proof.
  intros v Hv. destruct (failPng_headers msg status) as (_ & Hh & _).
  rewrite Hh in Hv. injection Hv as <-. apply sanitizeErrorHeader_one_line.
Qed.

Lemma failSvg_one_line msg status : headerOnOneLine (failSvg msg status).
Proof.
  intros v Hv. destruct (failSvg_headers msg status) as (_ & Hh & _).
  rewrite Hh in Hv. injection Hv as <-. apply sanitizeErrorHeader_one_line.
Qed.

Lemma no_error_header_one_line r :
  headers r !! ERROR_HEADER = None -> headerOnOneLine r.
Proof. intros Hnone v Hv. congruence. Qed.

Section HandlerExtras.

Variable isDev : bool.
Variable toLowerCase : jsstring -> jsstring.
Variable DEFAULT_QR_SIZE : Z.
Variable renderChartJs : renderJob -> result (list N).
Variable renderQr : jsstring -> option jsval -> option jsval -> qrOptions -> result (list N).
Variable renderGraphviz : option jsval -> graphvizOpts -> result (list N).
Variable getPdfBufferFromPng : list N -> result (list N).
Variable getPdfBufferWithText : jsval -> result (list N).
Variable toChartJs : gmap jsstring jsval -> result converted.
Variable parseSize : option jsval -> result (option jsval * option jsval).
Variable javascriptStringify : option jsval -> jsstring.
Variable decodeBase64 : option jsval -> result jsstring.

Local Abbreviation legacyRoute :=
  (handleGChart isDev renderChartJs renderQr renderGraphviz toChartJs parseSize
     javascriptStringify).
Local Abbreviation chartRoute :=
  (getChart isDev toLowerCase renderChartJs renderQr renderGraphviz
     getPdfBufferFromPng getPdfBufferWithText toChartJs parseSize
     javascriptStringify decodeBase64).
Local Abbreviation qrRoute := (getQr isDev DEFAULT_QR_SIZE renderQr).

Lemma writeBuffer_one_line contentType buf :
  headerOnOneLine (writeBuffer isDev contentType buf).
Proof. by apply no_error_header_one_line. Qed.

Lemma sendBuffer_one_line contentType buf :
  headerOnOneLine (sendBuffer isDev contentType buf).
Proof. by apply no_error_header_one_line. Qed.

Lemma failPdf_one_line msg r :
  failPdf getPdfBufferWithText msg = Responded r -> headerOnOneLine r.
Proof.
  intros Hr v Hv. destruct (failPdf_headers getPdfBufferWithText msg r Hr) as (_ & Hh & _).
  rewrite Hh in Hv. injection Hv as <-. apply sanitizeErrorHeader_one_line.
Qed.

Lemma doChartjsRender_one_line opts failFn onRenderHandler r :
  (forall msg r', failFn msg = Responded r' -> headerOnOneLine r') ->
  (forall buf r', onRenderHandler buf = Resolved r' -> headerOnOneLine r') ->
  doChartjsRender renderChartJs decodeBase64 opts failFn onRenderHandler = Responded r ->
  headerOnOneLine r.
Proof.
  intros Hfail Hok Hr.
  apply doChartjsRender_responded in Hr as [(buf & Hh)|(msg & _ & Hw)].
  - by apply (Hok buf).
  - by apply (Hfail msg).
Qed.

Lemma handleGChart_one_line req r :
  legacyRoute req = Responded r -> headerOnOneLine r.
Proof.
  unfold handleGChart.
  destruct (query req !! js "cht") as [[cht| | |]|]; try discriminate.
  destruct (startsWith cht (js "gv")).
  - assert (forall opts, handleGraphviz renderGraphviz req opts = Responded r ->
                         headerOnOneLine r) as Hgv.
    { intros opts. unfold handleGraphviz.
      destruct (renderGraphviz _ opts); [intros [= <-]; by apply no_error_header_one_line|].
      case_bool_decide; intros [-> _]%inPromise_responded%writeFailure_responded;
        [apply failPng_one_line|apply failSvg_one_line]. }
    destruct (truthy _); [|apply Hgv].
    destruct (parseSize _); [apply Hgv|discriminate].
  - case_bool_decide.
    + destruct (query req !! js "chs") as [[chs| | |]|]; try discriminate.
      destruct (orElse _ _) as [[chld| | |]|]; try discriminate.
      destruct (renderQr _ _ _ _);
        [intros [= <-]; apply writeBuffer_one_line|].
      intros [-> _]%inPromise_responded%writeFailure_responded. apply failPng_one_line.
    + destruct (toChartJs _); [|intros [= <-]; by apply no_error_header_one_line].
      case_bool_decide; [intros [= <-]; by apply no_error_header_one_line|].
      destruct (renderChartJs _); [|discriminate].
      intros [= <-]. apply writeBuffer_one_line.
Qed.

(** X15. No header injection through error messages: every response written
    by the gate, by GET /chart (native and legacy), by /gchart and by /qr
    either has no X-quickchart-error header or has one without carriage
    returns and line feeds, whatever the collaborators answer. *)
Theorem error_header_is_always_on_one_line
    (apiKeys : gmap jsstring (gmap jsstring Z)) (req : request) (now : Z)
    (requestCounts : gmap jsstring (gmap jsstring jsnum)) (r : response) :
  (fst (authAndRateLimit apiKeys req now requestCounts) = Respond r -> headerOnOneLine r)
  /\ (chartRoute req = Responded r -> headerOnOneLine r)
  /\ (legacyRoute req = Responded r -> headerOnOneLine r)
  /\ (qrRoute req = Responded r -> headerOnOneLine r).
Proof.
  split; [|split; [|split]].
  - intros [-> | ->]%gate_responses; apply failPng_one_line.
  - unfold getChart. destruct (truthy (query req !! js "cht"));
      [apply handleGChart_one_line|].
    destruct (orElse _ _) as [[requested| | |]|]; try discriminate.
    case_bool_decide.
    { unfold renderChartToPdf. apply doChartjsRender_one_line.
      - apply failPdf_one_line.
      - intros buf r'. destruct (getPdfBufferFromPng buf); [|discriminate].
        intros [= <-]. apply writeBuffer_one_line. }
    case_bool_decide.
    { unfold renderChartToSvg. apply doChartjsRender_one_line.
      - intros msg r' [-> _]%writeFailure_responded. apply failSvg_one_line.
      - intros buf r' [= <-]. apply sendBuffer_one_line. }
    destruct (_ || _).
    { unfold renderChartToPng. apply doChartjsRender_one_line.
      - intros msg r' [-> _]%writeFailure_responded. apply failPng_one_line.
      - intros buf r' [= <-]. apply sendBuffer_one_line. }
    intros [= <-]. by apply no_error_header_one_line.
  - apply handleGChart_one_line.
  - unfold getQr. destruct (truthy _); cbn [negb];
      [|intros [-> _]%writeFailure_responded; apply failPng_one_line].
    destruct (renderQr _ _ _ _); [intros [= <-]; apply writeBuffer_one_line|].
    intros [-> _]%inPromise_responded%writeFailure_responded. apply failPng_one_line.
Qed.

End HandlerExtras.

Lemma error_header_is_always_on_one_line_witness :
  headerOnOneLine
    (failPng (VObj (js "Error: code length overflow")) 500).
Proof.
  refine (proj2 (proj2 (proj2 (error_header_is_always_on_one_line false (fun s => s)
            150 demoRenderChartJs demoRenderQr demoRenderGraphviz demoPdfFromPng
            demoPdfWithText demoToChartJs demoParseSize demoStringify demoDecodeBase64
            ∅ {| authorization := None;
                 query := <[js "text" := VStr (js "hello")]>
                            {[ js "format" := VStr (js "svg") ]} |} 0 ∅
            (failPng (VObj (js "Error: code length overflow")) 500)))) _).
  reflexivity.
Defined.

(** ** What the handlers ask of the collaborators *)

(** X16. The QR route calls the encoder only with format png or svg, a
    non-empty text, both colours, a numeric margin, and a width that is the
    default size or a non-zero number of at most 3000: two encoders that
    agree on such calls give the same answer to every request. *)
Theorem qr_route_caps_the_size
    (isDev : bool) (DEFAULT_QR_SIZE : Z)
    (renderQr renderQr' : jsstring -> option jsval -> option jsval -> qrOptions
                          -> result (list N))
    (req : request)
    (agree : forall format mode text opts,
               qrCallOk DEFAULT_QR_SIZE format text opts ->
               renderQr format mode text opts = renderQr' format mode text opts) :
  getQr isDev DEFAULT_QR_SIZE renderQr req = getQr isDev DEFAULT_QR_SIZE renderQr' req.
Proof.
  unfold getQr. destruct (truthy (query req !! js "text")) eqn:Htext; [|reflexivity].
  cbn [negb]. rewrite agree; [reflexivity|].
  split; [case_bool_decide; auto|]. split; [exact Htext|].
  cbn [qrWidth qrMargin qrColor]. split; [|split; [|by eexists]].
  - eexists. split; [reflexivity|].
    destruct (parseIntVal (query req !! js "size")) as [n|]; [|by left].
    destruct (Z.eqb_spec (Z.min 3000 n) 0); [by left|right]. lia.
  - eexists. split; [reflexivity|].
    destruct (query req !! js "margin") as [m|]; [|right; by eexists].
    destruct (parseIntVal (Some m)); cbn [numOf]; [right; by eexists|by left].
Qed.

Lemma qr_route_caps_the_size_witness :
  getQr false 150 (fun _ _ _ opts => Resolved [])
    {| authorization := None;
       query := <[js "size" := VStr (js "999999")]> {[ js "text" := VStr (js "hi") ]} |}
  = getQr false 150
      (fun _ _ _ opts =>
         match qrWidth opts with
         | VNum n => if n <=? 3000 then Resolved [] else Rejected VNaN
         | _ => Rejected VNaN
         end)
      {| authorization := None;
         query := <[js "size" := VStr (js "999999")]> {[ js "text" := VStr (js "hi") ]} |}.
Proof.
  apply qr_route_caps_the_size.
  intros format mode text opts (_ & _ & (n & -> & Hn) & _).
  destruct Hn as [->|[Hle _]]; [reflexivity|].
  by rewrite (proj2 (Z.leb_le n 3000)).
Defined.

(** X17. The chart pipeline calls the renderer only with a non-zero integer
    width and height (500 and 300 when the parameter is missing or not a
    number), a version ("2.9.4" when none is given) and the resolved format:
    two renderers that agree on such jobs give the same answer. *)
Theorem chart_pipeline_fills_in_defaults
    (renderChartJs renderChartJs' : renderJob -> result (list N))
    (decodeBase64 : option jsval -> result jsstring)
    (opts : chartOpts) (failFn : jsval -> outcome)
    (onRenderHandler : list N -> result response)
    (agree : forall job, chartCallOk opts job -> renderChartJs job = renderChartJs' job) :
  doChartjsRender renderChartJs decodeBase64 opts failFn onRenderHandler
  = doChartjsRender renderChartJs' decodeBase64 opts failFn onRenderHandler.
Proof.
  assert (forall input,
            chartCallOk opts
              {| jobWidth := Some (VNum (parseIntOr (optWidth opts) 500));
                 jobHeight := Some (VNum (parseIntOr (optHeight opts) 300));
                 jobBackgroundColor := optBackgroundColor opts;
                 jobDevicePixelRatio := optDevicePixelRatio opts;
                 jobVersion := orElse (optVersion opts) (Some (VStr (js "2.9.4")));
                 jobFormat := Some (VStr (optFormat opts));
                 jobChart := input |}) as Hok.
  { intros input. unfold chartCallOk. cbn [jobWidth jobHeight jobVersion jobFormat].
    split; [|split; [|split; [|split; [|reflexivity]]]].
    - eexists. split; [reflexivity|]. unfold parseIntOr.
      destruct (parseIntVal (optWidth opts)) as [n|]; [|done].
      destruct (Z.eqb_spec n 0); done.
    - eexists. split; [reflexivity|]. unfold parseIntOr.
      destruct (parseIntVal (optHeight opts)) as [n|]; [|done].
      destruct (Z.eqb_spec n 0); done.
    - unfold orElse. by destruct (truthy (optVersion opts)) eqn:Hv.
    - by intros ->. }
  unfold doChartjsRender. destruct (negb _); [reflexivity|].
  destruct (bool_decide _).
  - destruct (decodeBase64 _); [|reflexivity]. by rewrite agree.
  - by rewrite agree.
Qed.

Lemma chart_pipeline_fills_in_defaults_witness :
  renderChartToPng false
    (fun job => match jobWidth job with
                | Some (VNum 500) => Resolved [1%N]
                | _ => Rejected VNaN
                end)
    demoDecodeBase64
    {| optChart := Some (VStr (js "{}")); optHeight := None;
       optWidth := Some (VStr (js "wide")); optBackgroundColor := None;
       optDevicePixelRatio := None; optVersion := None;
       optEncoding := Some (VStr (js "url")); optFormat := js "png" |}
  = renderChartToPng false (fun job => Resolved [1%N]) demoDecodeBase64
      {| optChart := Some (VStr (js "{}")); optHeight := None;
         optWidth := Some (VStr (js "wide")); optBackgroundColor := None;
         optDevicePixelRatio := None; optVersion := None;
         optEncoding := Some (VStr (js "url")); optFormat := js "png" |}.
Proof.
  unfold renderChartToPng. apply chart_pipeline_fills_in_defaults.
  intros job ((width & -> & _ & Hdefault) & _).
  by rewrite Hdefault.
Defined.

(** X18. On the legacy route, a chart type that is neither Graphviz nor QR
    never reaches the chart renderer when the translator fails (the answer is
    the 500 plain-text apology) or when [format=chartjs-config] is asked (the
    answer is the translated configuration as application/json). *)
Theorem legacy_config_request_bypasses_renderer
    (isDev : bool)
    (renderChartJs renderChartJs' : renderJob -> result (list N))
    (renderQr : jsstring -> option jsval -> option jsval -> qrOptions -> result (list N))
    (renderGraphviz : option jsval -> graphvizOpts -> result (list N))
    (toChartJs : gmap jsstring jsval -> result converted)
    (parseSize : option jsval -> result (option jsval * option jsval))
    (javascriptStringify : option jsval -> jsstring)
    (req : request) (cht : jsstring)
    (chart_type : query req !! js "cht" = Some (VStr cht))
    (not_graphviz : startsWith cht (js "gv") = false)
    (not_qr : cht ≠ js "qr")
    (no_render : (exists err, toChartJs (query req) = Rejected err)
                 \/ query req !! js "format" = Some (VStr (js "chartjs-config"))) :
  handleGChart isDev renderChartJs renderQr renderGraphviz toChartJs parseSize
    javascriptStringify req
  = handleGChart isDev renderChartJs' renderQr renderGraphviz toChartJs parseSize
      javascriptStringify req
  /\ exists r,
       handleGChart isDev renderChartJs renderQr renderGraphviz toChartJs parseSize
         javascriptStringify req = Responded r
       /\ match toChartJs (query req) with
          | Rejected _ => statusCode r = 500 /\ headers r = ∅
          | Resolved conv =>
              statusCode r = 200
              /\ headers r !! CONTENT_TYPE = Some (js "application/json")
              /\ responseBody r = Text (javascriptStringify (convChart conv))
          end.
Proof.
  unfold handleGChart. rewrite chart_type, not_graphviz.
  rewrite bool_decide_eq_false_2 by assumption.
  destruct (toChartJs (query req)) as [conv|err] eqn:Hconv.
  - destruct no_render as [[err [=]]|Hfmt].
    rewrite Hfmt, bool_decide_eq_true_2 by reflexivity.
    split; [reflexivity|]. eexists. split; [reflexivity|]. repeat split.
  - split; [reflexivity|]. eexists. split; [reflexivity|]. repeat split.
Qed.

Lemma legacy_config_request_bypasses_renderer_witness :
  exists r,
    handleGChart false demoRenderChartJs demoRenderQr demoRenderGraphviz demoToChartJs
      demoParseSize demoStringify
      {| authorization := None;
         query := <[js "format" := VStr (js "chartjs-config")]>
                    {[ js "cht" := VStr (js "bvg") ]} |}
    = Responded r /\ statusCode r = 200.
Proof.
  destruct (legacy_config_request_bypasses_renderer false demoRenderChartJs
              demoRenderChartJs demoRenderQr demoRenderGraphviz demoToChartJs
              demoParseSize demoStringify
              {| authorization := None;
                 query := <[js "format" := VStr (js "chartjs-config")]>
                            {[ js "cht" := VStr (js "bvg") ]} |}
              (js "bvg")) as [_ (r & Hr & Hshape)].
  - reflexivity.
  - reflexivity.
  - discriminate.
  - right. reflexivity.
  - exists r. split; [exact Hr|]. exact (proj1 Hshape).
Defined.

(** X19. The Graphviz branch of the legacy route honours the requested
    format on success and on failure alike.  For a chart type starting with
    "gv" (and no [chs], or a [chs] the size parser accepts) the layout engine
    is called once, on [chl], with the format [chof]; when it yields a
    buffer, the answer is that buffer with status 200, as image/png when
    [chof] is "png" and as image/svg+xml otherwise; when it fails with an
    error, the answer is the error image of that same format with status 500
    and the message "Graph Error: " followed by the error, provided the
    sanitized message is a header value that [res.writeHead] accepts. *)
Theorem graphviz_answers_in_the_requested_format
    (isDev : bool)
    (renderChartJs : renderJob -> result (list N))
    (renderQr : jsstring -> option jsval -> option jsval -> qrOptions -> result (list N))
    (renderGraphviz : option jsval -> graphvizOpts -> result (list N))
    (toChartJs : gmap jsstring jsval -> result converted)
    (parseSize : option jsval -> result (option jsval * option jsval))
    (javascriptStringify : option jsval -> jsstring)
    (req : request) (cht : jsstring)
    (chart_type : query req !! js "cht" = Some (VStr cht))
    (graphviz : startsWith cht (js "gv") = true)
    (size_ok : truthy (query req !! js "chs") = false
               \/ exists size, parseSize (query req !! js "chs") = Resolved size) :
  let isPng := bool_decide (query req !! js "chof" = Some (VStr (js "png"))) in
  let answer :=
    handleGChart isDev renderChartJs renderQr renderGraphviz toChartJs parseSize
      javascriptStringify req in
  exists opts,
    graphvizCallOk req cht opts
    /\ match renderGraphviz (query req !! js "chl") opts with
       | Resolved buf =>
           answer
           = Responded
               {| statusCode := 200;
                  headers := {[ CONTENT_TYPE :=
                                  if isPng then js "image/png" else js "image/svg+xml" ]};
                  responseBody := Buffer buf |}
       | Rejected err =>
           headerAccepted (sanitizeErrorHeader (graphError err)) = true ->
           answer
           = Responded (if isPng then failPng (graphError err) 500
                        else failSvg (graphError err) 500)
       end.
Proof.
  cbn zeta.
  assert (forall opts,
            gvFormat opts = query req !! js "chof" ->
            match renderGraphviz (query req !! js "chl") opts with
            | Resolved buf =>
                handleGraphviz renderGraphviz req opts
                = Responded
                    {| statusCode := 200;
                       headers :=
                         {[ CONTENT_TYPE :=
                              if bool_decide (query req !! js "chof"
                                              = Some (VStr (js "png")))
                              then js "image/png" else js "image/svg+xml" ]};
                       responseBody := Buffer buf |}
            | Rejected err =>
                headerAccepted (sanitizeErrorHeader (graphError err)) = true ->
                handleGraphviz renderGraphviz req opts
                = Responded
                    (if bool_decide (query req !! js "chof" = Some (VStr (js "png")))
                     then failPng (graphError err) 500
                     else failSvg (graphError err) 500)
            end) as Hgv.
  { intros opts Hfmt. unfold handleGraphviz. rewrite Hfmt.
    destruct (renderGraphviz _ opts) as [buf|err]; [reflexivity|].
    intros Hok. fold (graphError err).
    destruct (bool_decide _); by rewrite writeFailure_accepted. }
  unfold handleGChart. rewrite chart_type, graphviz.
  assert (forall size,
            graphvizCallOk req cht
              {| gvFormat := query req !! js "chof";
                 gvEngine := if bool_decide (58%N ∈ cht)
                             then default [] (split 58 cht !! 1%nat) else js "dot";
                 gvSize := size |}) as Hcall.
  { intros size. split; [reflexivity|]. intros Hno. cbn [gvEngine].
    by rewrite bool_decide_eq_false_2. }
  destruct (truthy (query req !! js "chs")) eqn:Hchs.
  - destruct size_ok as [[=]|[size Hsize]]. rewrite Hsize.
    eexists. split; [apply Hcall|]. by apply Hgv.
  - eexists. split; [apply Hcall|]. by apply Hgv.
Qed.

Lemma graphviz_answers_in_the_requested_format_witness :
  handleGChart false demoRenderChartJs demoRenderQr demoRenderGraphviz demoToChartJs
    demoParseSize demoStringify
    {| authorization := None;
       query := <[js "chof" := VStr (js "png")]> {[ js "cht" := VStr (js "gv:neato") ]} |}
  = Responded (failPng (graphError (VObj (js "Error: syntax error"))) 500).
Proof.
  destruct (graphviz_answers_in_the_requested_format false demoRenderChartJs
              demoRenderQr demoRenderGraphviz demoToChartJs demoParseSize demoStringify
              {| authorization := None;
                 query := <[js "chof" := VStr (js "png")]>
                            {[ js "cht" := VStr (js "gv:neato") ]} |}
              (js "gv:neato")) as (opts & _ & Hanswer).
  - reflexivity.
  - reflexivity.
  - left. reflexivity.
  - apply Hanswer. reflexivity.
Defined.

(** The one call of the QR route to the encoder, and what the route makes
    of its result. *)
Lemma getQr_called isDev DEFAULT_QR_SIZE renderQr req :
  let svg := bool_decide (query req !! js "format" = Some (VStr (js "svg"))) in
  truthy (query req !! js "text") = true ->
  exists opts,
    qrCallOk DEFAULT_QR_SIZE (if svg then js "svg" else js "png")
      (query req !! js "text") opts
    /\ getQr isDev DEFAULT_QR_SIZE renderQr req
       = match renderQr (if svg then js "svg" else js "png") (query req !! js "mode")
                 (query req !! js "text") opts with
         | Resolved buf =>
             Responded
               (writeBuffer isDev (if svg then js "image/svg+xml" else js "image/png") buf)
         | Rejected err => inPromise (writeFailure (failPng err 500))
         end.
Proof.
  cbn zeta. intros Htext. unfold getQr. rewrite Htext. cbn [negb].
  set (opts := {| qrMargin := _; qrWidth := _; qrErrorCorrectionLevel := _;
                  qrColor := _ |}).
  exists opts. split.
  - split; [destruct (bool_decide _); auto|]. split; [exact Htext|].
    cbn [qrWidth qrMargin qrColor]. split; [|split; [|by eexists]].
    + eexists. split; [reflexivity|].
      destruct (parseIntVal (query req !! js "size")) as [n|]; [|by left].
      destruct (Z.eqb_spec (Z.min 3000 n) 0); [by left|right]. lia.
    + eexists. split; [reflexivity|].
      destruct (query req !! js "margin") as [m|]; [|right; by eexists].
      destruct (parseIntVal (Some m)); cbn [numOf]; [right; by eexists|by left].
  - destruct (renderQr _ _ _ opts); [|reflexivity].
    by destruct (bool_decide (query req !! js "format" = Some (VStr (js "svg")))).
Qed.

(** X20. The QR route answers by what the encoder does, and reports every
    failure as a PNG.  Without [text] the answer is the PNG error image with
    status 500 and the message "You are missing variable `text`".  With
    [text] the encoder is called once, with the format "svg" when [format]
    is exactly "svg" and "png" otherwise; when it yields a buffer, the
    answer is that buffer with status 200, its length as Content-Length and
    the content type of the format; when it fails with an error, the answer
    is the PNG error image with status 500 and that error as its message,
    also when SVG was asked, provided the sanitized message is a header
    value that [res.writeHead] accepts. *)
Theorem qr_route_follows_the_encoder
    (isDev : bool) (DEFAULT_QR_SIZE : Z)
    (renderQr : jsstring -> option jsval -> option jsval -> qrOptions -> result (list N))
    (req : request) :
  let answer := getQr isDev DEFAULT_QR_SIZE renderQr req in
  let svg := bool_decide (query req !! js "format" = Some (VStr (js "svg"))) in
  (truthy (query req !! js "text") = false ->
   answer = Responded (failPng MISSING_TEXT 500))
  /\ (truthy (query req !! js "text") = true ->
      exists opts,
        qrCallOk DEFAULT_QR_SIZE (if svg then js "svg" else js "png")
          (query req !! js "text") opts
        /\ match renderQr (if svg then js "svg" else js "png") (query req !! js "mode")
                   (query req !! js "text") opts with
           | Resolved buf =>
               answer
               = Responded
                   (writeBuffer isDev
                      (if svg then js "image/svg+xml" else js "image/png") buf)
           | Rejected err =>
               headerAccepted (sanitizeErrorHeader err) = true ->
               answer = Responded (failPng err 500)
           end).
Proof.
  cbn zeta. split; intros Htext.
  - unfold getQr. by rewrite Htext.
  - destruct (getQr_called isDev DEFAULT_QR_SIZE renderQr req Htext)
      as (opts & Hok & ->).
    exists opts. split; [exact Hok|].
    destruct (renderQr _ _ _ opts) as [buf|err]; [reflexivity|].
    intros Haccepted. by rewrite writeFailure_accepted.
Qed.

Lemma qr_route_follows_the_encoder_witness :
  demoGetQr {| authorization := None;
               query := <[js "text" := VStr (js "hello")]>
                          {[ js "format" := VStr (js "svg") ]} |}
  = Responded (failPng (VObj (js "Error: code length overflow")) 500).
Proof.
  destruct (qr_route_follows_the_encoder false 150 demoRenderQr
              {| authorization := None;
                 query := <[js "text" := VStr (js "hello")]>
                            {[ js "format" := VStr (js "svg") ]} |})
    as [_ Hcalled].
  destruct Hcalled as (opts & _ & Hanswer); [reflexivity|].
  apply Hanswer. reflexivity.
Defined.



(** ** Admission, window by window *)


